(** * Washing-machine controller (src/main.cpp): model and verified properties

    The controller is a single C++ translation unit for an mbed board.  It is
    embedded here as a state-passing program over a record of its global
    variables, a hardware oracle for the input pins and a trace of the output
    actions (PWM, LEDs, display, console lines, delays).

    - [float] is IEEE-754 binary32, through the executable specification of
      the Standard Library ([SpecFloat], precision 24, emax 128);
    - [int] is a 32-bit two's-complement integer, kept as a [Z] with the
      wrap-around written out ([wrap32]);
    - every function of the source has a definition of the same name. *)

From Stdlib Require Import ZArith List Bool Lia.
From Stdlib Require Import Floats.SpecFloat.
Import ListNotations.
Local Open Scope Z_scope.

(** ** Machine integers *)

Definition INT_MIN : Z := - 2 ^ 31.
Definition INT_MAX : Z := 2 ^ 31 - 1.

(** Result of an [int] operation whose mathematical value is [z].  Signed
    overflow is undefined in C++; the target wraps, and so does the model. *)
Definition wrap32 (z : Z) : Z := (z + 2 ^ 31) mod 2 ^ 32 - 2 ^ 31.

(** ** Single-precision floats *)

Module F32.

Definition prec : Z := 24.
Definition emax : Z := 128.

Definition float : Type := spec_float.

Definition add : float -> float -> float := SFadd prec emax.
Definition sub : float -> float -> float := SFsub prec emax.
Definition mul : float -> float -> float := SFmul prec emax.
Definition div : float -> float -> float := SFdiv prec emax.
Definition ltb : float -> float -> bool := SFltb.
Definition leb : float -> float -> bool := SFleb.
Definition fabs : float -> float := SFabs.

(** A float is well formed when its mantissa and exponent are those of a
    binary32 number (normal or subnormal). *)
Definition valid (x : float) : bool := valid_binary prec emax x.

(** Conversion [int -> float] (round to nearest even). *)
Definition of_int (z : Z) : float := binary_normalize prec emax z 0 false.

(** Decimal literal [n / 10^k] with an [f] suffix: the nearest binary32. *)
Definition lit (n : Z) (k : Z) : float := div (of_int n) (of_int (10 ^ k)).

(** Magnitude of the nearest integer to [m * 2^e], halfway cases away from
    zero. *)
Definition round_mag (m : positive) (e : Z) : Z :=
  if 0 <=? e then Zpos m * 2 ^ e
  else (Zpos m + 2 ^ (- e - 1)) / 2 ^ (- e).

(** [roundf] / [round] of <cmath>. *)
Definition roundf (x : float) : float :=
  match x with
  | S754_finite s m e =>
      if 0 <=? e then x
      else match round_mag m e with
           | 0 => S754_zero s
           | n => binary_normalize prec emax (cond_Zopp s n) 0 s
           end
  | _ => x
  end.

(** Integer part of a finite float (truncation toward zero). *)
Definition trunc (x : float) : option Z :=
  match x with
  | S754_zero _ => Some 0
  | S754_finite s m e =>
      Some (cond_Zopp s (if 0 <=? e then Zpos m * 2 ^ e else Zpos m / 2 ^ (- e)))
  | _ => None
  end.

(** Conversion [float -> int].  In range it truncates.  Out of range and
    for NaN the C++ conversion is undefined; the model follows the
    Cortex-M conversion instruction, which saturates and sends NaN to 0. *)
Definition to_int (x : float) : Z :=
  match x with
  | S754_nan => 0
  | S754_infinity s => if s then INT_MIN else INT_MAX
  | _ => match trunc x with
         | Some z => Z.max INT_MIN (Z.min INT_MAX z)
         | None => 0
         end
  end.

End F32.

Abbreviation float := F32.float.

(** ** Constants of the program *)

Definition FREQUENCY : float := Eval vm_compute in F32.of_int 100.
Definition FSR_THRESHOLD : float := Eval vm_compute in F32.lit 1 1.
Definition LDR_THRESHOLD : float := Eval vm_compute in F32.of_int 15.
Definition TEMP_THRESHOLD : float := Eval vm_compute in F32.of_int 5.
Definition DOOR_OPEN_THRESHOLD : float := Eval vm_compute in F32.of_int 40.
Definition TEMP_SENSOR_CALIBRATION : float := Eval vm_compute in F32.lit 5 1.
Definition DEBOUNCE_COUNT : Z := 3.
Definition NUM_SAMPLES : Z := 5.

Definition LOAD_LIGHT : float := Eval vm_compute in F32.lit 2 1.
Definition LOAD_MEDIUM : float := Eval vm_compute in F32.lit 4 1.
Definition LOAD_HEAVY : float := Eval vm_compute in F32.lit 6 1.
Definition LOAD_OVERLOAD : float := Eval vm_compute in F32.lit 7 1.

Definition hexDis : list Z :=
  [0x3F; 0x06; 0x5B; 0x4F; 0x66; 0x6D; 0x7D; 0x07;
   0x7F; 0x6F; 0x77; 0x7C; 0x39; 0x5E; 0x79; 0x71].

(** Float literals used in the code. *)
Definition f0 : float := S754_zero false.
Definition f0_5 : float := Eval vm_compute in F32.lit 5 1.
Definition f1 : float := Eval vm_compute in F32.of_int 1.
Definition f2 : float := Eval vm_compute in F32.of_int 2.
Definition f4 : float := Eval vm_compute in F32.of_int 4.
Definition f7 : float := Eval vm_compute in F32.of_int 7.
Definition f8 : float := Eval vm_compute in F32.of_int 8.
Definition f100 : float := Eval vm_compute in F32.of_int 100.
Definition f330 : float := Eval vm_compute in F32.of_int 330.

(** ** Program state, hardware and output trace *)

Inductive SystemState := OFF | IDLE | RUNNING.

Definition SystemState_eqb (a b : SystemState) : bool :=
  match a, b with
  | OFF, OFF | IDLE, IDLE | RUNNING, RUNNING => true
  | _, _ => false
  end.

(** Input and output pins, named as the objects of the source. *)
Inductive AnalogIn := potRPM | potTemp | potTime | fsrSensor | tempSensor | ldrSensor.
Inductive DigitalIn := powerButton | startPauseButton.
Inductive PwmOut := buzzer | rgbRed | rgbGreen | rgbBlue.

Definition AnalogIn_eqb (a b : AnalogIn) : bool :=
  match a, b with
  | potRPM, potRPM | potTemp, potTemp | potTime, potTime
  | fsrSensor, fsrSensor | tempSensor, tempSensor | ldrSensor, ldrSensor => true
  | _, _ => false
  end.

Definition DigitalIn_eqb (a b : DigitalIn) : bool :=
  match a, b with
  | powerButton, powerButton | startPauseButton, startPauseButton => true
  | _, _ => false
  end.

(** What the pins deliver: the [k]-th read of a pin since start-up returns
    the [k]-th value of its signal.  A digital level is [true] when high. *)
Record Hardware := {
  analog_signal : AnalogIn -> nat -> float;
  digital_signal : DigitalIn -> nat -> bool
}.

(** The console lines, one constructor per [printf] of the source, with the
    arguments of its format. *)
Inductive LogLine :=
| LogBoot                                   (* System starting in OFF state *)
| LogSystemOn                               (* [System On] *)
| LogSystemOff                              (* [System Off] *)
| LogSettings (rpm temp time : Z)           (* RPM: %d | Temp Set: %d | Time: %d min *)
| LogSensors (fsr : float) (displayTemp : Z) (doorIsOpen : bool)
                                            (* Load: %.2f | Temp: %d | %s *)
| LogOverloadWarning                        (* WARNING: Washer overloaded! *)
| LogLoadAcceptable                         (* Load level acceptable *)
| LogCannotStartDoor                        (* Cannot start: Door is open! *)
| LogCannotStartOverload                    (* Cannot start: Washer overloaded! *)
| LogStartingCycle (rpm temp time : Z)      (* Starting wash cycle: %d RPM, ... *)
| LogCountdown (i : Z)                      (* Cycle countdown: %d0 minutes remaining *)
| LogCycleComplete                          (* Cycle complete! *)
| LogCycleEnded                             (* Cycle ended *)
| LogCycleInProgress.                       (* Cycle already in progress *)

(** Output actions, in program order. *)
Inductive Event :=
| Printf (l : LogLine)
| PwmPeriod (p : PwmOut) (seconds : float)
| PwmWrite (p : PwmOut) (duty : float)
| RedLedWrite (v : Z)
| SegDisWrite (pattern : Z)
| WaitUs (us : Z).

(** The global variables of the program, the number of reads made so far on
    each input pin, and the outputs produced so far (oldest first). *)
Record World := {
  systemState : SystemState;
  doorOpenWarningActive : bool;
  overloadWarningActive : bool;
  lastPowerState : Z;
  lastStartState : Z;
  prevFsr : float;
  prevLdr : float;
  prevTempActual : float;
  prevRpm : Z;
  prevTemp : Z;
  prevTime : Z;
  doorOpenCount : Z;
  doorClosedCount : Z;
  analogReads : AnalogIn -> nat;
  digitalReads : DigitalIn -> nat;
  trace : list Event
}.

Definition set_systemState (v : SystemState) (w : World) : World :=
  {| systemState := v; doorOpenWarningActive := doorOpenWarningActive w; overloadWarningActive
     := overloadWarningActive w; lastPowerState := lastPowerState w; lastStartState :=
     lastStartState w; prevFsr := prevFsr w; prevLdr := prevLdr w; prevTempActual :=
     prevTempActual w; prevRpm := prevRpm w; prevTemp := prevTemp w; prevTime := prevTime w;
     doorOpenCount := doorOpenCount w; doorClosedCount := doorClosedCount w; analogReads :=
     analogReads w; digitalReads := digitalReads w; trace := trace w |}.

Definition set_doorOpenWarningActive (v : bool) (w : World) : World :=
  {| systemState := systemState w; doorOpenWarningActive := v; overloadWarningActive :=
     overloadWarningActive w; lastPowerState := lastPowerState w; lastStartState :=
     lastStartState w; prevFsr := prevFsr w; prevLdr := prevLdr w; prevTempActual :=
     prevTempActual w; prevRpm := prevRpm w; prevTemp := prevTemp w; prevTime := prevTime w;
     doorOpenCount := doorOpenCount w; doorClosedCount := doorClosedCount w; analogReads :=
     analogReads w; digitalReads := digitalReads w; trace := trace w |}.

Definition set_overloadWarningActive (v : bool) (w : World) : World :=
  {| systemState := systemState w; doorOpenWarningActive := doorOpenWarningActive w;
     overloadWarningActive := v; lastPowerState := lastPowerState w; lastStartState :=
     lastStartState w; prevFsr := prevFsr w; prevLdr := prevLdr w; prevTempActual :=
     prevTempActual w; prevRpm := prevRpm w; prevTemp := prevTemp w; prevTime := prevTime w;
     doorOpenCount := doorOpenCount w; doorClosedCount := doorClosedCount w; analogReads :=
     analogReads w; digitalReads := digitalReads w; trace := trace w |}.

Definition set_lastPowerState (v : Z) (w : World) : World :=
  {| systemState := systemState w; doorOpenWarningActive := doorOpenWarningActive w;
     overloadWarningActive := overloadWarningActive w; lastPowerState := v; lastStartState :=
     lastStartState w; prevFsr := prevFsr w; prevLdr := prevLdr w; prevTempActual :=
     prevTempActual w; prevRpm := prevRpm w; prevTemp := prevTemp w; prevTime := prevTime w;
     doorOpenCount := doorOpenCount w; doorClosedCount := doorClosedCount w; analogReads :=
     analogReads w; digitalReads := digitalReads w; trace := trace w |}.

Definition set_lastStartState (v : Z) (w : World) : World :=
  {| systemState := systemState w; doorOpenWarningActive := doorOpenWarningActive w;
     overloadWarningActive := overloadWarningActive w; lastPowerState := lastPowerState w;
     lastStartState := v; prevFsr := prevFsr w; prevLdr := prevLdr w; prevTempActual :=
     prevTempActual w; prevRpm := prevRpm w; prevTemp := prevTemp w; prevTime := prevTime w;
     doorOpenCount := doorOpenCount w; doorClosedCount := doorClosedCount w; analogReads :=
     analogReads w; digitalReads := digitalReads w; trace := trace w |}.

Definition set_prevFsr (v : float) (w : World) : World :=
  {| systemState := systemState w; doorOpenWarningActive := doorOpenWarningActive w;
     overloadWarningActive := overloadWarningActive w; lastPowerState := lastPowerState w;
     lastStartState := lastStartState w; prevFsr := v; prevLdr := prevLdr w; prevTempActual :=
     prevTempActual w; prevRpm := prevRpm w; prevTemp := prevTemp w; prevTime := prevTime w;
     doorOpenCount := doorOpenCount w; doorClosedCount := doorClosedCount w; analogReads :=
     analogReads w; digitalReads := digitalReads w; trace := trace w |}.

Definition set_prevLdr (v : float) (w : World) : World :=
  {| systemState := systemState w; doorOpenWarningActive := doorOpenWarningActive w;
     overloadWarningActive := overloadWarningActive w; lastPowerState := lastPowerState w;
     lastStartState := lastStartState w; prevFsr := prevFsr w; prevLdr := v; prevTempActual :=
     prevTempActual w; prevRpm := prevRpm w; prevTemp := prevTemp w; prevTime := prevTime w;
     doorOpenCount := doorOpenCount w; doorClosedCount := doorClosedCount w; analogReads :=
     analogReads w; digitalReads := digitalReads w; trace := trace w |}.

Definition set_prevTempActual (v : float) (w : World) : World :=
  {| systemState := systemState w; doorOpenWarningActive := doorOpenWarningActive w;
     overloadWarningActive := overloadWarningActive w; lastPowerState := lastPowerState w;
     lastStartState := lastStartState w; prevFsr := prevFsr w; prevLdr := prevLdr w;
     prevTempActual := v; prevRpm := prevRpm w; prevTemp := prevTemp w; prevTime := prevTime w;
     doorOpenCount := doorOpenCount w; doorClosedCount := doorClosedCount w; analogReads :=
     analogReads w; digitalReads := digitalReads w; trace := trace w |}.

Definition set_prevRpm (v : Z) (w : World) : World :=
  {| systemState := systemState w; doorOpenWarningActive := doorOpenWarningActive w;
     overloadWarningActive := overloadWarningActive w; lastPowerState := lastPowerState w;
     lastStartState := lastStartState w; prevFsr := prevFsr w; prevLdr := prevLdr w;
     prevTempActual := prevTempActual w; prevRpm := v; prevTemp := prevTemp w; prevTime :=
     prevTime w; doorOpenCount := doorOpenCount w; doorClosedCount := doorClosedCount w;
     analogReads := analogReads w; digitalReads := digitalReads w; trace := trace w |}.

Definition set_prevTemp (v : Z) (w : World) : World :=
  {| systemState := systemState w; doorOpenWarningActive := doorOpenWarningActive w;
     overloadWarningActive := overloadWarningActive w; lastPowerState := lastPowerState w;
     lastStartState := lastStartState w; prevFsr := prevFsr w; prevLdr := prevLdr w;
     prevTempActual := prevTempActual w; prevRpm := prevRpm w; prevTemp := v; prevTime :=
     prevTime w; doorOpenCount := doorOpenCount w; doorClosedCount := doorClosedCount w;
     analogReads := analogReads w; digitalReads := digitalReads w; trace := trace w |}.

Definition set_prevTime (v : Z) (w : World) : World :=
  {| systemState := systemState w; doorOpenWarningActive := doorOpenWarningActive w;
     overloadWarningActive := overloadWarningActive w; lastPowerState := lastPowerState w;
     lastStartState := lastStartState w; prevFsr := prevFsr w; prevLdr := prevLdr w;
     prevTempActual := prevTempActual w; prevRpm := prevRpm w; prevTemp := prevTemp w; prevTime
     := v; doorOpenCount := doorOpenCount w; doorClosedCount := doorClosedCount w; analogReads :=
     analogReads w; digitalReads := digitalReads w; trace := trace w |}.

Definition set_doorOpenCount (v : Z) (w : World) : World :=
  {| systemState := systemState w; doorOpenWarningActive := doorOpenWarningActive w;
     overloadWarningActive := overloadWarningActive w; lastPowerState := lastPowerState w;
     lastStartState := lastStartState w; prevFsr := prevFsr w; prevLdr := prevLdr w;
     prevTempActual := prevTempActual w; prevRpm := prevRpm w; prevTemp := prevTemp w; prevTime
     := prevTime w; doorOpenCount := v; doorClosedCount := doorClosedCount w; analogReads :=
     analogReads w; digitalReads := digitalReads w; trace := trace w |}.

Definition set_doorClosedCount (v : Z) (w : World) : World :=
  {| systemState := systemState w; doorOpenWarningActive := doorOpenWarningActive w;
     overloadWarningActive := overloadWarningActive w; lastPowerState := lastPowerState w;
     lastStartState := lastStartState w; prevFsr := prevFsr w; prevLdr := prevLdr w;
     prevTempActual := prevTempActual w; prevRpm := prevRpm w; prevTemp := prevTemp w; prevTime
     := prevTime w; doorOpenCount := doorOpenCount w; doorClosedCount := v; analogReads :=
     analogReads w; digitalReads := digitalReads w; trace := trace w |}.

Definition set_analogReads (v : AnalogIn -> nat) (w : World) : World :=
  {| systemState := systemState w; doorOpenWarningActive := doorOpenWarningActive w;
     overloadWarningActive := overloadWarningActive w; lastPowerState := lastPowerState w;
     lastStartState := lastStartState w; prevFsr := prevFsr w; prevLdr := prevLdr w;
     prevTempActual := prevTempActual w; prevRpm := prevRpm w; prevTemp := prevTemp w; prevTime
     := prevTime w; doorOpenCount := doorOpenCount w; doorClosedCount := doorClosedCount w;
     analogReads := v; digitalReads := digitalReads w; trace := trace w |}.

Definition set_digitalReads (v : DigitalIn -> nat) (w : World) : World :=
  {| systemState := systemState w; doorOpenWarningActive := doorOpenWarningActive w;
     overloadWarningActive := overloadWarningActive w; lastPowerState := lastPowerState w;
     lastStartState := lastStartState w; prevFsr := prevFsr w; prevLdr := prevLdr w;
     prevTempActual := prevTempActual w; prevRpm := prevRpm w; prevTemp := prevTemp w; prevTime
     := prevTime w; doorOpenCount := doorOpenCount w; doorClosedCount := doorClosedCount w;
     analogReads := analogReads w; digitalReads := v; trace := trace w |}.

Definition set_trace (v : list Event) (w : World) : World :=
  {| systemState := systemState w; doorOpenWarningActive := doorOpenWarningActive w;
     overloadWarningActive := overloadWarningActive w; lastPowerState := lastPowerState w;
     lastStartState := lastStartState w; prevFsr := prevFsr w; prevLdr := prevLdr w;
     prevTempActual := prevTempActual w; prevRpm := prevRpm w; prevTemp := prevTemp w; prevTime
     := prevTime w; doorOpenCount := doorOpenCount w; doorClosedCount := doorClosedCount w;
     analogReads := analogReads w; digitalReads := digitalReads w; trace := v |}.

(** The variables as initialised at their declarations. *)
Definition initialWorld : World :=
  {| systemState := OFF;
     doorOpenWarningActive := false;
     overloadWarningActive := false;
     lastPowerState := 0;
     lastStartState := 0;
     prevFsr := F32.of_int (-1);
     prevLdr := F32.of_int (-1);
     prevTempActual := F32.of_int (-1);
     prevRpm := -1;
     prevTemp := -1;
     prevTime := -1;
     doorOpenCount := 0;
     doorClosedCount := 0;
     analogReads := fun _ => O;
     digitalReads := fun _ => O;
     trace := [] |}.

(** ** The program monad: state passing over [World] *)

Definition M (A : Type) : Type := World -> A * World.

Definition ret {A} (a : A) : M A := fun w => (a, w).
Definition exec {A} (c : M A) (w : World) : World := snd (c w).
Definition eval {A} (c : M A) (w : World) : A := fst (c w).
Definition bind {A B} (c : M A) (k : A -> M B) : M B :=
  fun w => k (eval c w) (exec c w).

Notation "x <- c ;; k" := (bind c (fun x => k))
  (at level 61, c at next level, right associativity).
Notation "c ;; k" := (bind c (fun _ => k))
  (at level 61, right associativity).

Definition get {A} (f : World -> A) : M A := fun w => (f w, w).
Definition modify (f : World -> World) : M unit := fun w => (tt, f w).
Definition when (b : bool) (c : M unit) : M unit := if b then c else ret tt.

Definition emit (e : Event) : M unit :=
  modify (fun w => set_trace (trace w ++ [e]) w).
Definition printf (l : LogLine) : M unit := emit (Printf l).
Definition wait_us (us : Z) : M unit := emit (WaitUs us).

(** ** The functions of main.cpp *)

Section Controller.

(** The signals on the input pins. *)
Variable hw : Hardware.

(** [AnalogIn::read]: a value in [0,1] on the device; the model accepts
    whatever the signal holds. *)
Definition analogRead (p : AnalogIn) : M float :=
  fun w =>
    (analog_signal hw p (analogReads w p),
     set_analogReads
       (fun q => if AnalogIn_eqb q p then S (analogReads w q) else analogReads w q) w).

(** [DigitalIn::read]: 0 (low) or 1 (high). *)
Definition digitalRead (p : DigitalIn) : M Z :=
  fun w =>
    (Z.b2z (digital_signal hw p (digitalReads w p)),
     set_digitalReads
       (fun q => if DigitalIn_eqb q p then S (digitalReads w q) else digitalReads w q) w).

Definition pwmWrite (p : PwmOut) (duty : float) : M unit := emit (PwmWrite p duty).
Definition pwmPeriod (p : PwmOut) (s : float) : M unit := emit (PwmPeriod p s).

(** Set RGB LED colours. *)
Definition setRGB (r g b : float) : M unit :=
  pwmWrite rgbRed r ;;
  pwmWrite rgbGreen g ;;
  pwmWrite rgbBlue b.

(** Play a beep sound. *)
Definition playBeep (freq : float) (duration_ms : Z) : M unit :=
  pwmPeriod buzzer (F32.div f1 freq) ;;
  pwmWrite buzzer f0_5 ;;
  wait_us (wrap32 (duration_ms * 1000)) ;;
  pwmWrite buzzer f0.

(** Set RGB based on load level. *)
Definition setLoadLevelColor (load : float) : M unit :=
  if F32.ltb load LOAD_LIGHT then setRGB f0 f1 f0
  else if F32.ltb load LOAD_MEDIUM then setRGB f0_5 f1 f0
  else if F32.ltb load LOAD_HEAVY then setRGB f1 f1 f0
  else if F32.ltb load LOAD_OVERLOAD then setRGB f1 f0_5 f0
  else setRGB f1 f0 f0.

(** The body of the sampling loop of [readAveragedSensor], [n] more
    rounds to go. *)
Fixpoint sampleLoop (n : nat) (sensor : AnalogIn) (scale sum : float) : M float :=
  match n with
  | O => ret sum
  | S n' =>
      v <- analogRead sensor ;;
      let sum := F32.add sum (F32.mul v scale) in
      wait_us 5000 ;;
      sampleLoop n' sensor scale sum
  end.

(** Read sensor with averaging to reduce noise. *)
Definition readAveragedSensor (sensor : AnalogIn) (scale : float) : M float :=
  sum <- sampleLoop (Z.to_nat NUM_SAMPLES) sensor scale f0 ;;
  ret (F32.div sum (F32.of_int NUM_SAMPLES)).

(** Update 7 segment display.  [value % 10] truncates toward zero; the
    callers pass 0..9. *)
Definition updateDisplay (value : Z) : M unit :=
  st <- get systemState ;;
  match st with
  | OFF => emit (SegDisWrite 0x00)
  | _ => emit (SegDisWrite (nth (Z.to_nat (Z.rem value 10)) hexDis 0))
  end.

(** [for (int i = n; i > 0; --i)] of the countdown. *)
Fixpoint countdownLoop (n : nat) : M unit :=
  match n with
  | O => ret tt
  | S n' =>
      updateDisplay (Z.of_nat n) ;;
      printf (LogCountdown (Z.of_nat n)) ;;
      countdownLoop n'
  end.

(** [for (int i = 0; i < 3; ++i)] of the completion beep, [n] rounds to go. *)
Fixpoint completionBeeps (n : nat) : M unit :=
  match n with
  | O => ret tt
  | S n' =>
      playBeep (F32.of_int 1000) 200 ;;
      wait_us 200000 ;;
      completionBeeps n'
  end.

(** Running the wash cycle. *)
Definition runCycleCountdown (minutes : Z) : M unit :=
  let steps := Z.quot minutes 10 in
  countdownLoop (Z.to_nat steps) ;;
  updateDisplay 0 ;;
  printf LogCycleComplete ;;
  completionBeeps 3.

(** Check for significant change in sensor readings. *)
Definition hasSignificantChange (newVal prevVal threshold : float) : bool :=
  F32.ltb prevVal (F32.of_int 0)
  || F32.leb threshold (F32.fabs (F32.sub newVal prevVal)).

(** Check if door is open based on ldr: converting the [AnalogIn] object
    to [float] reads the pin. *)
Definition isDoorOpen : M bool :=
  v <- analogRead ldrSensor ;;
  ret (F32.ltb DOOR_OPEN_THRESHOLD v).

(** Check if washer is overloaded. *)
Definition isOverloaded (load : float) : bool :=
  F32.ltb LOAD_OVERLOAD load.

(** Power on the system. *)
Definition powerOn : M unit :=
  modify (set_systemState IDLE) ;;
  playBeep (F32.of_int 600) 100 ;;
  printf LogSystemOn ;;
  pwmPeriod rgbRed (F32.div f1 FREQUENCY) ;;
  pwmPeriod rgbGreen (F32.div f1 FREQUENCY) ;;
  pwmPeriod rgbBlue (F32.div f1 FREQUENCY).

(** System power off. *)
Definition powerOff : M unit :=
  modify (set_systemState OFF) ;;
  playBeep (F32.of_int 600) 100 ;;
  printf LogSystemOff ;;
  setRGB (F32.of_int 0) (F32.of_int 0) (F32.of_int 0) ;;
  emit (RedLedWrite 0) ;;
  updateDisplay 0 ;;
  modify (set_doorOpenWarningActive false) ;;
  modify (set_overloadWarningActive false).

(** [(int)(pot * k + 2.0f) * scale] of the RPM and temperature settings. *)
Definition potSetting (pot k : float) (scale : Z) : Z :=
  wrap32 (F32.to_int (F32.add (F32.mul pot k) f2) * scale).

(** The time setting as [readAndProcessSensors] computes it. *)
Definition timeSetting (potVal : float) : Z :=
  let time := wrap32 (F32.to_int (F32.roundf (F32.mul potVal f8)) + 1) in
  let time := if time >? 9 then 9 else time in
  wrap32 (time * 10).

(** The time setting as [handleButtons] computes it at cycle start. *)
Definition startTime (potVal : float) : Z :=
  let time := wrap32 (wrap32 (F32.to_int (F32.roundf (F32.mul potVal f8)) + 1) * 10) in
  if time >? 90 then 90 else time.

(** Door state (lines 247-268): count consistent readings and change the
    warning flag only after [DEBOUNCE_COUNT] of them. *)
Definition doorDebounce (currentDoorReading : bool) : M unit :=
  (if currentDoorReading then
     modify (fun w => set_doorOpenCount (wrap32 (doorOpenCount w + 1)) w) ;;
     modify (set_doorClosedCount 0)
   else
     modify (fun w => set_doorClosedCount (wrap32 (doorClosedCount w + 1)) w) ;;
     modify (set_doorOpenCount 0)) ;;
  active <- get doorOpenWarningActive ;;
  closedCount <- get doorClosedCount ;;
  openCount <- get doorOpenCount ;;
  let doorCurrentlyOpen :=
    if active then closedCount <? DEBOUNCE_COUNT else DEBOUNCE_COUNT <=? openCount in
  when (negb (Bool.eqb doorCurrentlyOpen active))
    (modify (set_doorOpenWarningActive doorCurrentlyOpen) ;;
     st <- get systemState ;;
     when (doorCurrentlyOpen && SystemState_eqb st IDLE)
       (playBeep (F32.of_int 700) 200)).

(** Handle overload warning state changes (lines 278-288). *)
Definition overloadUpdate (fsr : float) : M unit :=
  let currentlyOverloaded := isOverloaded fsr in
  active <- get overloadWarningActive ;;
  when (negb (Bool.eqb currentlyOverloaded active))
    (modify (set_overloadWarningActive currentlyOverloaded) ;;
     if currentlyOverloaded then
       printf LogOverloadWarning ;;
       playBeep (F32.of_int 500) 100
     else
       printf LogLoadAcceptable).

(** Sensor Processing. *)
Definition readAndProcessSensors : M unit :=
  r <- analogRead potRPM ;;
  let rpm := potSetting r f7 100 in
  t <- analogRead potTemp ;;
  let temp := potSetting t f4 10 in
  potVal <- analogRead potTime ;;
  let time := timeSetting potVal in
  fsr <- readAveragedSensor fsrSensor f1 ;;
  ldr <- readAveragedSensor ldrSensor f100 ;;
  raw <- readAveragedSensor tempSensor f330 ;;
  let tempActual := F32.mul raw TEMP_SENSOR_CALIBRATION in
  st <- get systemState ;;
  when (SystemState_eqb st IDLE) (updateDisplay (Z.quot time 10)) ;;
  pRpm <- get prevRpm ;;
  pTemp <- get prevTemp ;;
  pTime <- get prevTime ;;
  when (hasSignificantChange (F32.of_int rpm) (F32.of_int pRpm) (F32.of_int 50)
        || hasSignificantChange (F32.of_int temp) (F32.of_int pTemp) (F32.of_int 5)
        || hasSignificantChange (F32.of_int time) (F32.of_int pTime) (F32.of_int 5))
    (printf (LogSettings rpm temp time) ;;
     modify (set_prevRpm rpm) ;;
     modify (set_prevTemp temp) ;;
     modify (set_prevTime time)) ;;
  pFsr <- get prevFsr ;;
  pTempActual <- get prevTempActual ;;
  pLdr <- get prevLdr ;;
  when (hasSignificantChange fsr pFsr FSR_THRESHOLD
        || hasSignificantChange tempActual pTempActual TEMP_THRESHOLD
        || hasSignificantChange ldr pLdr LDR_THRESHOLD)
    (let displayTemp := F32.to_int (F32.roundf tempActual) in
     doorIsOpen <- isDoorOpen ;;
     printf (LogSensors fsr displayTemp doorIsOpen) ;;
     modify (set_prevFsr fsr) ;;
     modify (set_prevTempActual tempActual) ;;
     modify (set_prevLdr ldr)) ;;
  currentDoorReading <- isDoorOpen ;;
  doorDebounce currentDoorReading ;;
  st <- get systemState ;;
  when (SystemState_eqb st IDLE)
    (door <- get doorOpenWarningActive ;;
     emit (RedLedWrite (if door then 1 else 0))) ;;
  setLoadLevelColor fsr ;;
  overloadUpdate fsr.

(** Handle Power Button (lines 293-305). *)
Definition handlePowerButton : M unit :=
  level <- digitalRead powerButton ;;
  last <- get lastPowerState ;;
  when ((level =? 0) && (last =? 1))
    (st <- get systemState ;;
     (match st with
      | OFF => powerOn
      | _ => powerOff
      end) ;;
     modify (set_lastPowerState 0)) ;;
  level' <- digitalRead powerButton ;;
  when (level' =? 1) (modify (set_lastPowerState 1)).

(** Handle Start Button, only when system is on (lines 307-348). *)
Definition handleStartButton : M unit :=
  level <- digitalRead startPauseButton ;;
  last <- get lastStartState ;;
  st <- get systemState ;;
  when ((level =? 0) && (last =? 1) && negb (SystemState_eqb st OFF))
    (modify (set_lastStartState 0) ;;
     st <- get systemState ;;
     match st with
     | IDLE =>
         door <- get doorOpenWarningActive ;;
         overload <- get overloadWarningActive ;;
         if door then
           printf LogCannotStartDoor ;;
           playBeep (F32.of_int 300) 500
         else if overload then
           printf LogCannotStartOverload ;;
           playBeep (F32.of_int 300) 500
         else
           r <- analogRead potRPM ;;
           let rpm := potSetting r f7 100 in
           t <- analogRead potTemp ;;
           let temp := potSetting t f4 10 in
           p <- analogRead potTime ;;
           let time := startTime p in
           printf (LogStartingCycle rpm temp time) ;;
           modify (set_systemState RUNNING) ;;
           playBeep (F32.of_int 700) 100 ;;
           runCycleCountdown time ;;
           modify (set_systemState IDLE) ;;
           printf LogCycleEnded
     | RUNNING =>
         printf LogCycleInProgress ;;
         playBeep (F32.of_int 500) 100
     | OFF => ret tt
     end) ;;
  level' <- digitalRead startPauseButton ;;
  when (level' =? 1) (modify (set_lastStartState 1)).

(** button presses. *)
Definition handleButtons : M unit :=
  handlePowerButton ;;
  handleStartButton.

(** The statements of [main] before its loop. *)
Definition setup : M unit :=
  pwmWrite buzzer f0 ;;
  setRGB f0 f0 f0 ;;
  emit (RedLedWrite 0) ;;
  updateDisplay 0 ;;
  printf LogBoot.

(** One round of the [while (true)] loop of [main]. *)
Definition loopBody : M unit :=
  handleButtons ;;
  st <- get systemState ;;
  match st with
  | OFF => wait_us 500000
  | IDLE | RUNNING =>
      readAndProcessSensors ;;
      wait_us 100000
  end.

Fixpoint rounds (n : nat) : M unit :=
  match n with
  | O => ret tt
  | S n' => loopBody ;; rounds n'
  end.

(** [main], observed after [n] rounds of its endless loop. *)
Definition main (n : nat) : M unit :=
  setup ;;
  rounds n.

End Controller.

(** * Auxiliary definitions for the statements and proofs *)

(** [preserves f c]: running [c] does not change the observation [f] of the
    world. *)
Definition preserves {A X} (f : World -> X) (c : M A) : Prop :=
  forall w, f (exec c w) = f w.

(** Observations that do not look at the trace, and observations that do
    not look at the counters of analog reads. *)
Definition ignoresTrace {X} (f : World -> X) : Prop :=
  forall t w, f (set_trace t w) = f w.

Definition ignoresReads {X} (f : World -> X) : Prop :=
  forall r w, f (set_analogReads r w) = f w.

(** [wp c Q w]: the result and the final world of [c] started in [w]
    satisfy [Q].  Programs are total functions, so this is both the weakest
    precondition and the strongest postcondition. *)
Definition wp {A} (c : M A) (Q : A -> World -> Prop) (w : World) : Prop :=
  Q (eval c w) (exec c w).

(** What [playBeep] and [setRGB] emit. *)
Definition beepOutput (freq : float) (duration_ms : Z) : list Event :=
  [PwmPeriod buzzer (F32.div f1 freq); PwmWrite buzzer f0_5;
   WaitUs (wrap32 (duration_ms * 1000)); PwmWrite buzzer f0].

Definition rgbOutput (r g b : float) : list Event :=
  [PwmWrite rgbRed r; PwmWrite rgbGreen g; PwmWrite rgbBlue b].

(** The segment pattern [updateDisplay value] writes in state [st]. *)
Definition segPattern (st : SystemState) (value : Z) : Z :=
  match st with
  | OFF => 0x00
  | _ => nth (Z.to_nat (Z.rem value 10)) hexDis 0
  end.

(** An event is allowed by [P] when it is not a console line, or a line
    that satisfies [P]. *)
Definition allowed (P : LogLine -> Prop) (e : Event) : Prop :=
  match e with
  | Printf l => P l
  | _ => True
  end.

(** [logs P c]: [c] only appends to the trace, and every line it prints
    satisfies [P]. *)
Definition logs {A} (P : LogLine -> Prop) (c : M A) : Prop :=
  forall w, exists out, trace (exec c w) = trace w ++ out /\ Forall (allowed P) out.

(** A run of door polls with the given raw readings, oldest first. *)
Fixpoint doorPolls (readings : list bool) : M unit :=
  match readings with
  | [] => ret tt
  | r :: rs => doorDebounce r ;; doorPolls rs
  end.

(** The counter that works against the current value of the flag. *)
Definition opposingCount (w : World) : Z :=
  if doorOpenWarningActive w then doorClosedCount w else doorOpenCount w.

(** Length of the longest block of consecutive readings equal to [v] in
    [rs], for a block of length [cur] in progress before [rs]. *)
Fixpoint longestRun (v : bool) (cur : nat) (rs : list bool) : nat :=
  match rs with
  | [] => cur
  | r :: rs' =>
      if Bool.eqb r v then longestRun v (S cur) rs'
      else Nat.max cur (longestRun v 0 rs')
  end.

(** The load tiers of the specification, and the colour the source gives
    to each one (green, yellowish, yellow, orange, red). *)
Inductive LoadTier := Light | Normal | Medium | Heavy | Overload.

Definition tierColor (t : LoadTier) : float * float * float :=
  match t with
  | Light => (f0, f1, f0)
  | Normal => (f0_5, f1, f0)
  | Medium => (f1, f1, f0)
  | Heavy => (f1, f0_5, f0)
  | Overload => (f1, f0, f0)
  end.

Definition showTier (t : LoadTier) : M unit :=
  let '(r, g, b) := tierColor t in setRGB r g b.

(** The values the countdown counter takes: [steps], [steps - 1], ..., 1. *)
Definition countdownFrom (steps : nat) : list Z :=
  map Z.of_nat (rev (seq 1 steps)).

(** One countdown step in state [st] with counter [i]: the display, then
    the progress line. *)
Definition stepOutput (st : SystemState) (i : Z) : list Event :=
  [SegDisWrite (segPattern st i); Printf (LogCountdown i)].

(** [n] completion tones with the pause after each. *)
Definition tonesOutput (n : nat) : list Event :=
  concat (repeat (beepOutput (F32.of_int 1000) 200 ++ [WaitUs 200000]) n).

(** Everything [runCycleCountdown minutes] emits in state [st]. *)
Definition cycleOutput (st : SystemState) (minutes : Z) : list Event :=
  flat_map (stepOutput st) (countdownFrom (Z.to_nat (Z.quot minutes 10)))
  ++ [SegDisWrite (segPattern st 0); Printf LogCycleComplete]
  ++ tonesOutput 3.

(** The pattern of the last write to the display in a trace. *)
Fixpoint lastDisplay (t : list Event) : option Z :=
  match t with
  | [] => None
  | e :: t' =>
      match lastDisplay t' with
      | Some p => Some p
      | None => match e with SegDisWrite p => Some p | _ => None end
      end
  end.

(** Number of console lines selected by [sel] in a trace. *)
Definition countLogs (sel : LogLine -> bool) (t : list Event) : nat :=
  length (filter (fun e => match e with Printf l => sel l | _ => false end) t).

Definition isOverloadWarning (l : LogLine) : bool :=
  match l with LogOverloadWarning => true | _ => false end.

(** The lines by which a power button event shows. *)
Definition isPowerLine (l : LogLine) : bool :=
  match l with LogSystemOn | LogSystemOff => true | _ => false end.

(** The lines by which a start button event shows. *)
Definition isStartLine (l : LogLine) : bool :=
  match l with
  | LogCannotStartDoor | LogCannotStartOverload
  | LogStartingCycle _ _ _ | LogCycleInProgress => true
  | _ => false
  end.

Definition powerEvents (w : World) : nat := countLogs isPowerLine (trace w).
Definition startEvents (w : World) : nat := countLogs isStartLine (trace w).

(** Number of release-to-press transitions in a sequence of levels
    ([true] is high, released) that follows the level [last]. *)
Fixpoint pressEdges (last : bool) (levels : list bool) : nat :=
  match levels with
  | [] => 0
  | l :: ls => (if last && negb l then 1 else 0) + pressEdges l ls
  end.

(** The pin [p] shows the given levels to a sequence of rounds that starts
    at read number [c]: both reads of a round see the level of the round. *)
Fixpoint seenLevels (hw : Hardware) (p : DigitalIn) (c : nat) (levels : list bool) : bool :=
  match levels with
  | [] => true
  | l :: ls =>
      Bool.eqb (digital_signal hw p c) l
      && Bool.eqb (digital_signal hw p (S c)) l
      && seenLevels hw p (S (S c)) ls
  end.

(** ** The button detectors on the two reads of a round *)

(** A round of the main loop reads each button pin twice: once for the
    press test, once for the release test.  The reads [n] rounds make of the
    pin [p] from read number [c], oldest round first. *)
Fixpoint roundReads (hw : Hardware) (p : DigitalIn) (c n : nat) : list (bool * bool) :=
  match n with
  | O => []
  | S n' =>
      (digital_signal hw p c, digital_signal hw p (S c))
        :: roundReads hw p (S (S c)) n'
  end.

(** What the two detectors hold and have produced: whether the system is
    on (not OFF), whether each recorded level is 1, and the number of power
    and start events so far. *)
Record Buttons := {
  isOn : bool;
  powerLast : bool;
  startLast : bool;
  powerCount : nat;
  startCount : nat
}.

Definition buttonsOf (w : World) : Buttons :=
  {| isOn := negb (SystemState_eqb (systemState w) OFF);
     powerLast := lastPowerState w =? 1;
     startLast := lastStartState w =? 1;
     powerCount := powerEvents w;
     startCount := startEvents w |}.

(** One round of the two detectors on the reads [p] of the power button and
    [s] of the start button.  A detector fires when its first read is low
    and its recorded level is 1 (the start detector only while the system is
    on, after the power button has been handled); firing records 0, and a
    high second read records 1. *)
Definition buttonsStep (b : Buttons) (p s : bool * bool) : Buttons :=
  let powerFires := powerLast b && negb (fst p) in
  let on := xorb (isOn b) powerFires in
  let startFires := startLast b && negb (fst s) && on in
  {| isOn := on;
     powerLast := snd p || (powerLast b && negb powerFires);
     startLast := snd s || (startLast b && negb startFires);
     powerCount := powerCount b + (if powerFires then 1 else 0);
     startCount := startCount b + (if startFires then 1 else 0) |}.

Fixpoint buttonsRounds (b : Buttons) (ps ss : list (bool * bool)) : Buttons :=
  match ps, ss with
  | p :: ps', s :: ss' => buttonsRounds (buttonsStep b p s) ps' ss'
  | _, _ => b
  end.

(** The part of a round of the main loop after [handleButtons], from the
    world [w2] the buttons leave. *)
Definition afterButtons (hw : Hardware) (w2 : World) : World :=
  match systemState w2 with
  | OFF => exec (wait_us 500000) w2
  | _ => exec (wait_us 100000) (exec (readAndProcessSensors hw) w2)
  end.

(** The invariant of the main loop: the system is not RUNNING between
    rounds, and no cycle-already-in-progress line has been printed. *)
Definition notInProgress (l : LogLine) : Prop := l <> LogCycleInProgress.

Definition betweenRounds (w : World) : Prop :=
  systemState w <> RUNNING /\ Forall (allowed notInProgress) (trace w).

(** The value of a non-negative binary32 number in units of 2^-149, the
    smallest positive binary32 (0 for anything else). *)
Definition scaled (x : float) : Z :=
  match x with
  | S754_finite false m e => Zpos m * 2 ^ (e + 149)
  | _ => 0
  end.

(** The number of 10-minute steps above the minimum that both time
    computations derive from the time potentiometer. *)
Definition timeSteps (potVal : float) : Z :=
  F32.to_int (F32.roundf (F32.mul potVal f8)).

(** The three variables of the door debounce. *)
Definition doorVars (w : World) : bool * Z * Z :=
  (doorOpenWarningActive w, doorOpenCount w, doorClosedCount w).

(** [c] acts on the door variables as one debounce step on some reading. *)
Definition doorStepBy {A} (c : M A) : Prop :=
  forall w, exists r, doorVars (exec c w) = doorVars (exec (doorDebounce r) w).

(** ** Concrete hardware for the examples *)

(** A drum loaded to 0.75, all potentiometers at mid-travel, the time
    potentiometer at 0.  The power button is released during the first
    round, pressed during the second, released again afterwards; the start
    button is released during the first two rounds and held from the third. *)
Definition overloadedMachine : Hardware :=
  {| analog_signal := fun p _ =>
       match p with
       | fsrSensor => F32.lit 75 2
       | potTime => f0
       | _ => f0_5
       end;
     digital_signal := fun p k =>
       match p with
       | powerButton => negb ((2 <=? k)%nat && (k <? 4)%nat)
       | startPauseButton => (k <? 4)%nat
       end |}.

(** The same machine with a drum loaded to 0.25. *)
Definition lightMachine : Hardware :=
  {| analog_signal := fun p k =>
       match p with
       | fsrSensor => F32.lit 25 2
       | _ => analog_signal overloadedMachine p k
       end;
     digital_signal := digital_signal overloadedMachine |}.

(** A machine whose start button is released during the first round and
    held from the second, while the power button stays released during the
    first two rounds and is pressed in the third. *)
Definition startHeldWhileOff : Hardware :=
  {| analog_signal := fun _ _ => f0_5;
     digital_signal := fun p k =>
       match p with
       | powerButton => (k <? 4)%nat
       | startPauseButton => (k <? 2)%nat
       end |}.

(** * Further observations *)

(** Total of the delays in a trace, in microseconds. *)
Definition totalWait (t : list Event) : Z :=
  fold_right (fun e acc => match e with WaitUs us => us + acc | _ => acc end) 0 t.

(** The last value a trace gives to an actuator: [sel] picks the writes to
    it. *)
Definition lastWrite {X} (sel : Event -> option X) (t : list Event) : option X :=
  fold_left (fun acc e => match sel e with Some x => Some x | None => acc end) t None.

Definition pwmDuty (p : PwmOut) (e : Event) : option float :=
  match e with
  | PwmWrite q d =>
      match p, q with
      | buzzer, buzzer | rgbRed, rgbRed | rgbGreen, rgbGreen | rgbBlue, rgbBlue => Some d
      | _, _ => None
      end
  | _ => None
  end.

Definition ledLevel (e : Event) : option Z :=
  match e with RedLedWrite v => Some v | _ => None end.

Definition segDisPattern (e : Event) : option Z :=
  match e with SegDisWrite p => Some p | _ => None end.

(** A run of overload updates on the given loads, oldest first. *)
Fixpoint overloadPolls (loads : list float) : M unit :=
  match loads with
  | [] => ret tt
  | fsr :: rest => overloadUpdate fsr ;; overloadPolls rest
  end.

(** Number of places where a sequence of levels that follows the level
    [last] changes to [v]. *)
Fixpoint edgesTo (v last : bool) (levels : list bool) : nat :=
  match levels with
  | [] => 0
  | l :: ls =>
      (if Bool.eqb l v && negb (Bool.eqb last v) then 1 else 0) + edgesTo v l ls
  end.

Definition isLoadAcceptable (l : LogLine) : bool :=
  match l with LogLoadAcceptable => true | _ => false end.

(** A light sensor that stays within the range of [AnalogIn::read]: every
    sample is at most 1.0. *)
Definition ldrInRange (hw : Hardware) : Prop :=
  forall k, F32.leb (analog_signal hw ldrSensor k) f1 = true.

(** [c] acts on the door variables as one debounce step on the reading
    [r]. *)
Definition doorStepOn (r : bool) {A} (c : M A) : Prop :=
  forall w, doorVars (exec c w) = doorVars (exec (doorDebounce r) w).

Definition isCannotStartDoor (l : LogLine) : bool :=
  match l with LogCannotStartDoor => true | _ => false end.

(** The door has never been seen open: flag inactive, open counter zero,
    and no start refused because of the door. *)
Definition doorNeverOpen (w : World) : Prop :=
  doorOpenWarningActive w = false
  /\ doorOpenCount w = 0
  /\ countLogs isCannotStartDoor (trace w) = 0%nat.

(** What [powerOn] and [powerOff] emit. *)
Definition powerOnOutput : list Event :=
  beepOutput (F32.of_int 600) 100
  ++ [Printf LogSystemOn;
      PwmPeriod rgbRed (F32.div f1 FREQUENCY);
      PwmPeriod rgbGreen (F32.div f1 FREQUENCY);
      PwmPeriod rgbBlue (F32.div f1 FREQUENCY)].

Definition powerOffOutput : list Event :=
  beepOutput (F32.of_int 600) 100
  ++ [Printf LogSystemOff]
  ++ rgbOutput (F32.of_int 0) (F32.of_int 0) (F32.of_int 0)
  ++ [RedLedWrite 0; SegDisWrite 0x00].

(** Every actuator is off: buzzer and RGB duties 0, door LED 0, display
    blank. *)
Definition outputsOff (t : list Event) : Prop :=
  lastWrite (pwmDuty buzzer) t = Some f0
  /\ lastWrite (pwmDuty rgbRed) t = Some f0
  /\ lastWrite (pwmDuty rgbGreen) t = Some f0
  /\ lastWrite (pwmDuty rgbBlue) t = Some f0
  /\ lastWrite ledLevel t = Some 0
  /\ lastWrite segDisPattern t = Some 0x00.

(** The buzzer is silent: the last duty written to it is 0. *)
Definition buzzerSilent (w : World) : Prop :=
  lastWrite (pwmDuty buzzer) (trace w) = Some f0.

(** [keeps I c]: [c] maintains the property [I] of the world. *)
Definition keeps {A} (I : World -> Prop) (c : M A) : Prop :=
  forall w, I w -> I (exec c w).

(** What holds between two rounds of the main loop, besides
    [betweenRounds]: the system is OFF exactly after an even number of power
    events, and while it is OFF the warning flags are inactive and every
    actuator is off. *)
Definition powerInvariant (w : World) : Prop :=
  systemState w = (if Nat.even (powerEvents w) then OFF else IDLE)
  /\ (systemState w = OFF ->
      doorOpenWarningActive w = false
      /\ overloadWarningActive w = false
      /\ outputsOff (trace w)).

(** A machine with the drum loaded to 0.75 that is switched on in the
    second round and off again in the fourth; the start button is never
    pressed. *)
Definition powerCycledMachine : Hardware :=
  {| analog_signal := analog_signal overloadedMachine;
     digital_signal := fun p k =>
       match p with
       | powerButton =>
           negb ((2 <=? k)%nat && (k <? 4)%nat || (6 <=? k)%nat && (k <? 8)%nat)
       | startPauseButton => true
       end |}.

(** A float that is not a number. *)
Definition isNaN (x : float) : bool :=
  match x with S754_nan => true | _ => false end.

(** A machine with the drum loaded to 0.75 on which both buttons are
    released during the first round and pressed together from the second. *)
Definition bothPressedMachine : Hardware :=
  {| analog_signal := analog_signal overloadedMachine;
     digital_signal := fun _ k => (k <? 2)%nat |}.

(** The door LED shows the door flag: the last level written to it is 1
    when the flag is active and 0 when it is not. *)
Definition ledShowsDoor (w : World) : Prop :=
  lastWrite ledLevel (trace w) = Some (if doorOpenWarningActive w then 1 else 0).

(** The settings lines of a trace, oldest first. *)
Definition settingsLines (t : list Event) : list (Z * Z * Z) :=
  flat_map (fun e => match e with
                     | Printf (LogSettings rpm temp time) => [(rpm, temp, time)]
                     | _ => []
                     end) t.

Definition isSettingsLine (l : LogLine) : bool :=
  match l with LogSettings _ _ _ => true | _ => false end.

(** The remembered settings, and with them the settings lines printed so
    far. *)
Definition settingsVars (w : World) : Z * Z * Z :=
  (prevRpm w, prevTemp w, prevTime w).

Definition settingsObs (w : World) : Z * Z * Z * list (Z * Z * Z) :=
  (settingsVars w, settingsLines (trace w)).

(** The condition under which [readAndProcessSensors] prints the settings
    [rpm], [temp], [time] and remembers them. *)
Definition settingsChanged (rpm temp time : Z) (prev : Z * Z * Z) : bool :=
  let '(pRpm, pTemp, pTime) := prev in
  hasSignificantChange (F32.of_int rpm) (F32.of_int pRpm) (F32.of_int 50)
  || hasSignificantChange (F32.of_int temp) (F32.of_int pTemp) (F32.of_int 5)
  || hasSignificantChange (F32.of_int time) (F32.of_int pTime) (F32.of_int 5).

Definition settingsStep (rpm temp time : Z) (o : Z * Z * Z * list (Z * Z * Z)) :
  Z * Z * Z * list (Z * Z * Z) :=
  if settingsChanged rpm temp time (fst o)
  then ((rpm, temp, time), snd o ++ [(rpm, temp, time)])
  else o.

(** [c] acts on the remembered settings and the settings lines as the
    function [g]. *)
Definition settingsActs {A} (g : Z * Z * Z * list (Z * Z * Z) ->
                             Z * Z * Z * list (Z * Z * Z)) (c : M A) : Prop :=
  forall w, settingsObs (exec c w) = g (settingsObs w).

(** The values the settings take with potentiometers in range: 2-9 x 100
    rpm, 2-6 x 10 degrees, 1-9 x 10 minutes. *)
Definition rpmSettings : list Z := [200; 300; 400; 500; 600; 700; 800; 900].
Definition tempSettings : list Z := [20; 30; 40; 50; 60].
Definition timeSettings : list Z := [10; 20; 30; 40; 50; 60; 70; 80; 90].

(** The RGB LED is red: the last duties written are 1, 0 and 0. *)
Definition rgbIsRed (t : list Event) : Prop :=
  lastWrite (pwmDuty rgbRed) t = Some f1
  /\ lastWrite (pwmDuty rgbGreen) t = Some f0
  /\ lastWrite (pwmDuty rgbBlue) t = Some f0.

(** While the overload warning is active the RGB LED is red. *)
Definition redWhenOverloaded (w : World) : Prop :=
  overloadWarningActive w = true -> rgbIsRed (trace w).

(** * Reasoning about programs *)

(** ** Equations of the monad *)

Section MonadEquations.

Context {A B : Type}.

Lemma exec_bind (c : M A) (k : A -> M B) w :
  exec (bind c k) w = exec (k (eval c w)) (exec c w).
Proof. reflexivity. Qed.

Lemma eval_bind (c : M A) (k : A -> M B) w :
  eval (bind c k) w = eval (k (eval c w)) (exec c w).
Proof. reflexivity. Qed.

Lemma exec_ret (a : A) w : exec (ret a) w = w.
Proof. reflexivity. Qed.

Lemma eval_ret (a : A) w : eval (ret a) w = a.
Proof. reflexivity. Qed.

Lemma exec_get (f : World -> A) w : exec (get f) w = w.
Proof. reflexivity. Qed.

Lemma eval_get (f : World -> A) w : eval (get f) w = f w.
Proof. reflexivity. Qed.

End MonadEquations.

Lemma exec_modify f w : exec (modify f) w = f w.
Proof. reflexivity. Qed.

Lemma exec_when b c w : exec (when b c) w = if b then exec c w else w.
Proof. destruct b; reflexivity. Qed.

Lemma exec_emit e w : exec (emit e) w = set_trace (trace w ++ [e]) w.
Proof. reflexivity. Qed.

Lemma exec_wait_us us w : exec (wait_us us) w = set_trace (trace w ++ [WaitUs us]) w.
Proof. reflexivity. Qed.

(** ** Frame properties: what a program leaves alone *)

Section Preserves.

Context {X : Type} (f : World -> X).

Lemma preserves_ret {A} (a : A) : preserves f (ret a).
Proof. intros w; reflexivity. Qed.

Lemma preserves_get {A} (g : World -> A) : preserves f (get g).
Proof. intros w; reflexivity. Qed.

Lemma preserves_bind {A B} (c : M A) (k : A -> M B) :
  preserves f c -> (forall a, preserves f (k a)) -> preserves f (bind c k).
Proof.
  intros Hc Hk w. rewrite exec_bind, Hk. apply Hc.
Qed.

Lemma preserves_when b c : preserves f c -> preserves f (when b c).
Proof. intros Hc w. rewrite exec_when. destruct b; [apply Hc | reflexivity]. Qed.

Lemma preserves_modify g : (forall w, f (g w) = f w) -> preserves f (modify g).
Proof. intros H w. apply H. Qed.

Lemma preserves_ite {A} (b : bool) (c1 c2 : M A) :
  preserves f c1 -> preserves f c2 -> preserves f (if b then c1 else c2).
Proof. destruct b; auto. Qed.

End Preserves.

(** One structural step of a frame proof.  The leaves are projections of
    setters, which compute, or follow from the hypotheses on [f]. *)
Ltac frame_leaf :=
  intro;
  first [ reflexivity
        | match goal with H : ignoresTrace _ |- _ => apply H end
        | match goal with H : ignoresReads _ |- _ => apply H end ].

Ltac frame_step :=
  match goal with
  | H : preserves ?f ?c |- preserves ?f ?c => exact H
  | |- preserves _ (bind _ _) => apply preserves_bind; [ | intro ]
  | |- preserves _ (ret _) => apply preserves_ret
  | |- preserves _ (get _) => apply preserves_get
  | |- preserves _ (when _ _) => apply preserves_when
  | |- preserves _ (modify _) => apply preserves_modify; frame_leaf
  | |- preserves _ (if _ then _ else _) => apply preserves_ite
  | |- preserves _ (match ?s with OFF => _ | IDLE => _ | RUNNING => _ end) => destruct s
  | |- preserves _ (emit _) => apply preserves_modify; frame_leaf
  | |- preserves _ (printf _) => apply preserves_modify; frame_leaf
  | |- preserves _ (wait_us _) => apply preserves_modify; frame_leaf
  | |- preserves _ (pwmWrite _ _) => apply preserves_modify; frame_leaf
  | |- preserves _ (pwmPeriod _ _) => apply preserves_modify; frame_leaf
  | |- preserves _ (analogRead _ _) => frame_leaf
  | |- preserves _ (digitalRead _ _) => frame_leaf
  end.

Ltac frame := repeat frame_step.

Section Frames.

Variable hw : Hardware.
Context {X : Type} (f : World -> X).
Hypothesis f_trace : ignoresTrace f.

(** Programs that only produce output. *)

Lemma preserves_playBeep freq d : preserves f (playBeep freq d).
Proof. unfold playBeep; frame. Qed.

Lemma preserves_setRGB r g b : preserves f (setRGB r g b).
Proof. unfold setRGB; frame. Qed.

Lemma preserves_setLoadLevelColor load : preserves f (setLoadLevelColor load).
Proof. unfold setLoadLevelColor; frame; apply preserves_setRGB. Qed.

Lemma preserves_updateDisplay v : preserves f (updateDisplay v).
Proof. unfold updateDisplay; frame. Qed.

Lemma preserves_countdownLoop n : preserves f (countdownLoop n).
Proof.
  induction n as [|n IH]; cbn [countdownLoop]; frame.
  apply preserves_updateDisplay.
Qed.

Lemma preserves_completionBeeps n : preserves f (completionBeeps n).
Proof.
  induction n as [|n IH]; cbn [completionBeeps]; frame.
  apply preserves_playBeep.
Qed.

Lemma preserves_runCycleCountdown minutes : preserves f (runCycleCountdown minutes).
Proof.
  unfold runCycleCountdown; frame;
    auto using preserves_countdownLoop, preserves_updateDisplay,
      preserves_completionBeeps.
Qed.

(** Programs that also read input pins. *)

Hypothesis f_reads : ignoresReads f.

Lemma preserves_sampleLoop n sensor scale sum :
  preserves f (sampleLoop hw n sensor scale sum).
Proof.
  revert sum; induction n as [|n IH]; intro sum; cbn [sampleLoop]; frame.
  apply IH.
Qed.

Lemma preserves_readAveragedSensor sensor scale :
  preserves f (readAveragedSensor hw sensor scale).
Proof. unfold readAveragedSensor; frame. apply preserves_sampleLoop. Qed.

Lemma preserves_isDoorOpen : preserves f (isDoorOpen hw).
Proof. unfold isDoorOpen; frame. Qed.

End Frames.

(** ** Symbolic execution *)

Section WpRules.

Context {A : Type} (Q : A -> World -> Prop) (w : World).

Lemma wp_bind {B} (c : M B) (k : B -> M A) :
  wp c (fun b w' => wp (k b) Q w') w -> wp (bind c k) Q w.
Proof. exact (fun H => H). Qed.

Lemma wp_ret (a : A) : Q a w -> wp (ret a) Q w.
Proof. exact (fun H => H). Qed.

Lemma wp_get (f : World -> A) : Q (f w) w -> wp (get f) Q w.
Proof. exact (fun H => H). Qed.

Lemma wp_ite (b : bool) (c1 c2 : M A) :
  (b = true -> wp c1 Q w) -> (b = false -> wp c2 Q w) ->
  wp (if b then c1 else c2) Q w.
Proof. destruct b; intros H1 H2; [apply H1 | apply H2]; reflexivity. Qed.

End WpRules.

Section WpUnitRules.

Context (Q : unit -> World -> Prop) (w : World).

Lemma wp_modify g : Q tt (g w) -> wp (modify g) Q w.
Proof. exact (fun H => H). Qed.

Lemma wp_emit e : Q tt (set_trace (trace w ++ [e]) w) -> wp (emit e) Q w.
Proof. exact (fun H => H). Qed.

Lemma wp_when (b : bool) c :
  (b = true -> wp c Q w) -> (b = false -> Q tt w) -> wp (when b c) Q w.
Proof. destruct b; intros H1 H2; [apply H1 | apply H2]; reflexivity. Qed.

(** A call whose final world is known. *)
Lemma wp_exec (c : M unit) w' : exec c w = w' -> Q tt w' -> wp c Q w.
Proof. unfold wp. intros <-. destruct (eval c w). exact (fun H => H). Qed.

End WpUnitRules.

Lemma wp_analogRead {hw p} (Q : float -> World -> Prop) w :
  Q (analog_signal hw p (analogReads w p))
    (set_analogReads
       (fun q => if AnalogIn_eqb q p then S (analogReads w q) else analogReads w q) w) ->
  wp (analogRead hw p) Q w.
Proof. exact (fun H => H). Qed.

Lemma wp_digitalRead {hw p} (Q : Z -> World -> Prop) w :
  Q (Z.b2z (digital_signal hw p (digitalReads w p)))
    (set_digitalReads
       (fun q => if DigitalIn_eqb q p then S (digitalReads w q) else digitalReads w q) w) ->
  wp (digitalRead hw p) Q w.
Proof. exact (fun H => H). Qed.

(** Projections of updated worlds compute. *)
Ltac fields :=
  cbn [systemState doorOpenWarningActive overloadWarningActive lastPowerState
       lastStartState prevFsr prevLdr prevTempActual prevRpm prevTemp prevTime
       doorOpenCount doorClosedCount analogReads digitalReads trace
       set_systemState set_doorOpenWarningActive set_overloadWarningActive
       set_lastPowerState set_lastStartState set_prevFsr set_prevLdr
       set_prevTempActual set_prevRpm set_prevTemp set_prevTime
       set_doorOpenCount set_doorClosedCount set_analogReads set_digitalReads
       set_trace] in *.

Ltac wp_step :=
  match goal with
  | |- wp (bind _ _) _ _ => apply wp_bind
  | |- wp (ret _) _ _ => apply wp_ret
  | |- wp (get _) _ _ => apply wp_get; fields
  | |- wp (modify _) _ _ => apply wp_modify; fields
  | |- wp (emit _) _ _ => apply wp_emit; fields
  | |- wp (printf _) _ _ => apply wp_emit; fields
  | |- wp (wait_us _) _ _ => apply wp_emit; fields
  | |- wp (pwmWrite _ _) _ _ => apply wp_emit; fields
  | |- wp (pwmPeriod _ _) _ _ => apply wp_emit; fields
  | |- wp (when _ _) _ _ => apply wp_when; intro
  | |- wp (if _ then _ else _) _ _ => apply wp_ite; intro
  | |- wp (analogRead _ _) _ _ => apply wp_analogRead; fields
  | |- wp (digitalRead _ _) _ _ => apply wp_digitalRead; fields
  | |- wp (match ?s with OFF => _ | IDLE => _ | RUNNING => _ end) _ _ =>
      destruct s eqn:?
  end.

Ltac wp_run := repeat wp_step; fields.

(** Two worlds built from the same world by setters are equal when their
    fields are. *)
Ltac world_eq :=
  unfold set_systemState, set_doorOpenWarningActive, set_overloadWarningActive,
    set_lastPowerState, set_lastStartState, set_prevFsr, set_prevLdr,
    set_prevTempActual, set_prevRpm, set_prevTemp, set_prevTime,
    set_doorOpenCount, set_doorClosedCount, set_analogReads, set_digitalReads,
    set_trace;
  fields; f_equal; rewrite <- ?app_assoc; try reflexivity.

(** ** What the output-only functions emit *)

Lemma exec_playBeep freq d w :
  exec (playBeep freq d) w = set_trace (trace w ++ beepOutput freq d) w.
Proof.
  change (wp (playBeep freq d)
            (fun _ w' => w' = set_trace (trace w ++ beepOutput freq d) w) w).
  unfold playBeep; wp_run. world_eq.
Qed.

Lemma exec_setRGB r g b w :
  exec (setRGB r g b) w = set_trace (trace w ++ rgbOutput r g b) w.
Proof.
  change (wp (setRGB r g b)
            (fun _ w' => w' = set_trace (trace w ++ rgbOutput r g b) w) w).
  unfold setRGB; wp_run. world_eq.
Qed.

Lemma exec_updateDisplay v w :
  exec (updateDisplay v) w =
    set_trace (trace w ++ [SegDisWrite (segPattern (systemState w) v)]) w.
Proof.
  change (wp (updateDisplay v)
            (fun _ w' => w' = set_trace
               (trace w ++ [SegDisWrite (segPattern (systemState w) v)]) w) w).
  unfold updateDisplay; wp_run; reflexivity.
Qed.

(** Symbolic execution through the output-only calls. *)
Ltac wp_call :=
  match goal with
  | |- wp (playBeep _ _) _ _ => eapply wp_exec; [apply exec_playBeep | ]
  | |- wp (setRGB _ _ _) _ _ => eapply wp_exec; [apply exec_setRGB | ]
  | |- wp (updateDisplay _) _ _ => eapply wp_exec; [apply exec_updateDisplay | ]
  end.

Ltac wp_go := repeat first [wp_step | wp_call]; fields.

(** ** Which lines a program may print *)

Section Logs.

Context (P : LogLine -> Prop).

Lemma logs_silent {A} (c : M A) : preserves trace c -> logs P c.
Proof.
  intros H w. exists []. rewrite H, app_nil_r. split; [reflexivity | constructor].
Qed.

Lemma logs_bind {A B} (c : M A) (k : A -> M B) :
  logs P c -> (forall a, logs P (k a)) -> logs P (bind c k).
Proof.
  intros Hc Hk w. rewrite exec_bind.
  destruct (Hc w) as (o1 & E1 & F1).
  destruct (Hk (eval c w) (exec c w)) as (o2 & E2 & F2).
  exists (o1 ++ o2). rewrite E2, E1, app_assoc. split; [reflexivity | ].
  apply Forall_app; split; assumption.
Qed.

Lemma logs_when b c : logs P c -> logs P (when b c).
Proof.
  destruct b; [exact (fun H => H) | intros _].
  apply logs_silent. intro; reflexivity.
Qed.

Lemma logs_ite {A} (b : bool) (c1 c2 : M A) :
  logs P c1 -> logs P c2 -> logs P (if b then c1 else c2).
Proof. destruct b; auto. Qed.

Lemma logs_emit e : allowed P e -> logs P (emit e).
Proof.
  intros H w. exists [e]. split; [reflexivity | ]. constructor; [exact H | constructor].
Qed.

End Logs.

Ltac logs_step :=
  match goal with
  | H : logs ?P ?c |- logs ?P ?c => exact H
  | |- logs _ (bind _ _) => apply logs_bind; [ | intro ]
  | |- logs _ (when _ _) => apply logs_when
  | |- logs _ (if _ then _ else _) => apply logs_ite
  | |- logs _ (match ?s with OFF => _ | IDLE => _ | RUNNING => _ end) => destruct s
  | |- logs _ (ret _) => apply logs_silent; intro; reflexivity
  | |- logs _ (get _) => apply logs_silent; intro; reflexivity
  | |- logs _ (modify _) => apply logs_silent; intro; reflexivity
  | |- logs _ (analogRead _ _) => apply logs_silent; intro; reflexivity
  | |- logs _ (digitalRead _ _) => apply logs_silent; intro; reflexivity
  | |- logs _ (printf _) => apply logs_emit; cbn [allowed]
  | |- logs _ (emit _) => apply logs_emit; cbn [allowed]
  | |- logs _ (wait_us _) => apply logs_emit; exact I
  | |- logs _ (pwmWrite _ _) => apply logs_emit; exact I
  | |- logs _ (pwmPeriod _ _) => apply logs_emit; exact I
  end.

Ltac logs_run := repeat logs_step; try exact I; auto.

Section LogsOf.

Variable hw : Hardware.
Context (P : LogLine -> Prop).

Lemma logs_playBeep freq d : logs P (playBeep freq d).
Proof. unfold playBeep; logs_run. Qed.

Lemma logs_setRGB r g b : logs P (setRGB r g b).
Proof. unfold setRGB; logs_run. Qed.

Lemma logs_setLoadLevelColor load : logs P (setLoadLevelColor load).
Proof. unfold setLoadLevelColor; logs_run; apply logs_setRGB. Qed.

Lemma logs_updateDisplay v : logs P (updateDisplay v).
Proof. unfold updateDisplay; logs_run. Qed.

Lemma logs_sampleLoop n sensor scale sum : logs P (sampleLoop hw n sensor scale sum).
Proof.
  revert sum; induction n as [|n IH]; intro sum; cbn [sampleLoop]; logs_run.
Qed.

Lemma logs_readAveragedSensor sensor scale : logs P (readAveragedSensor hw sensor scale).
Proof. unfold readAveragedSensor; logs_run. apply logs_sampleLoop. Qed.

Lemma logs_isDoorOpen : logs P (isDoorOpen hw).
Proof. unfold isDoorOpen; logs_run. Qed.

Lemma logs_completionBeeps n : logs P (completionBeeps n).
Proof.
  induction n as [|n IH]; cbn [completionBeeps]; logs_run. apply logs_playBeep.
Qed.

Lemma logs_doorDebounce r : logs P (doorDebounce r).
Proof. unfold doorDebounce; logs_run; apply logs_playBeep. Qed.

Lemma logs_countdownLoop n :
  (forall i, P (LogCountdown i)) -> logs P (countdownLoop n).
Proof.
  intro H. induction n as [|n IH]; cbn [countdownLoop]; logs_run.
  apply logs_updateDisplay.
Qed.

Lemma logs_runCycleCountdown minutes :
  (forall i, P (LogCountdown i)) -> P LogCycleComplete ->
  logs P (runCycleCountdown minutes).
Proof.
  intros H1 H2. unfold runCycleCountdown; logs_run;
    auto using logs_countdownLoop, logs_updateDisplay, logs_completionBeeps.
Qed.

Lemma logs_powerOn : P LogSystemOn -> logs P powerOn.
Proof. intro. unfold powerOn; logs_run. apply logs_playBeep. Qed.

Lemma logs_powerOff : P LogSystemOff -> logs P powerOff.
Proof.
  intro. unfold powerOff; logs_run;
    auto using logs_playBeep, logs_setRGB, logs_updateDisplay.
Qed.

Lemma logs_overloadUpdate fsr :
  P LogOverloadWarning -> P LogLoadAcceptable -> logs P (overloadUpdate fsr).
Proof. intros. unfold overloadUpdate; logs_run. apply logs_playBeep. Qed.

Lemma logs_readAndProcessSensors :
  (forall rpm temp time, P (LogSettings rpm temp time)) ->
  (forall fsr t d, P (LogSensors fsr t d)) ->
  P LogOverloadWarning -> P LogLoadAcceptable ->
  logs P (readAndProcessSensors hw).
Proof.
  intros. unfold readAndProcessSensors; logs_run;
    auto using logs_readAveragedSensor, logs_updateDisplay, logs_isDoorOpen,
      logs_doorDebounce, logs_setLoadLevelColor, logs_overloadUpdate.
Qed.

Lemma logs_handlePowerButton :
  P LogSystemOn -> P LogSystemOff -> logs P (handlePowerButton hw).
Proof.
  intros. unfold handlePowerButton; logs_run;
    auto using logs_powerOn, logs_powerOff.
Qed.

End LogsOf.

(** ** The door debounce block *)

Section DoorPoll.

Variables (r : bool) (w : World).

Lemma doorDebounce_openCount :
  doorOpenCount (exec (doorDebounce r) w) =
    if r then wrap32 (doorOpenCount w + 1) else 0.
Proof.
  change (wp (doorDebounce r) (fun _ w' => doorOpenCount w' =
            if r then wrap32 (doorOpenCount w + 1) else 0) w).
  unfold doorDebounce. destruct r; wp_go; reflexivity.
Qed.

Lemma doorDebounce_closedCount :
  doorClosedCount (exec (doorDebounce r) w) =
    if r then 0 else wrap32 (doorClosedCount w + 1).
Proof.
  change (wp (doorDebounce r) (fun _ w' => doorClosedCount w' =
            if r then 0 else wrap32 (doorClosedCount w + 1)) w).
  unfold doorDebounce. destruct r; wp_go; reflexivity.
Qed.

Lemma doorDebounce_flag :
  doorOpenWarningActive (exec (doorDebounce r) w) =
    if doorOpenWarningActive w
    then doorClosedCount (exec (doorDebounce r) w) <? DEBOUNCE_COUNT
    else DEBOUNCE_COUNT <=? doorOpenCount (exec (doorDebounce r) w).
Proof.
  rewrite doorDebounce_openCount, doorDebounce_closedCount.
  change (wp (doorDebounce r) (fun _ w' => doorOpenWarningActive w' =
            if doorOpenWarningActive w
            then (if r then 0 else wrap32 (doorClosedCount w + 1)) <? DEBOUNCE_COUNT
            else DEBOUNCE_COUNT <=? (if r then wrap32 (doorOpenCount w + 1) else 0)) w).
  unfold doorDebounce.
  destruct r; wp_go; try reflexivity;
    match goal with
    | H : negb (Bool.eqb ?a ?b) = false |- ?b = ?a =>
        apply negb_false_iff, eqb_prop in H; symmetry; exact H
    end.
Qed.

End DoorPoll.

Lemma wrap32_small z : INT_MIN <= z <= INT_MAX -> wrap32 z = z.
Proof.
  unfold wrap32, INT_MIN, INT_MAX. intro H.
  rewrite Z.mod_small; lia.
Qed.

Lemma exec_doorPolls_cons r rs w :
  exec (doorPolls (r :: rs)) w = exec (doorPolls rs) (exec (doorDebounce r) w).
Proof. reflexivity. Qed.

Lemma longestRun_ge v rs : forall cur, (cur <= longestRun v cur rs)%nat.
Proof.
  induction rs as [|r rs IH]; intro cur; cbn [longestRun]; [lia | ].
  destruct (Bool.eqb r v); [specialize (IH (S cur)) | ]; lia.
Qed.

Lemma longestRun_firstn v rs : forall k cur,
  (longestRun v cur (firstn k rs) <= longestRun v cur rs)%nat.
Proof.
  induction rs as [|r rs IH]; intros [|k] cur; cbn [firstn longestRun]; try lia.
  - destruct (Bool.eqb r v); [ | lia].
    pose proof (longestRun_ge v rs (S cur)); lia.
  - destruct (Bool.eqb r v); [apply IH | ].
    specialize (IH k 0%nat); lia.
Qed.

Lemma door_flag_stable rs : forall w (c : nat),
  opposingCount w = Z.of_nat c ->
  Z.of_nat (longestRun (negb (doorOpenWarningActive w)) c rs) < DEBOUNCE_COUNT ->
  doorOpenWarningActive (exec (doorPolls rs) w) = doorOpenWarningActive w.
Proof.
  unfold DEBOUNCE_COUNT.
  induction rs as [|r rs IH]; intros w c Hc Hrun; [reflexivity | ].
  rewrite exec_doorPolls_cons.
  pose proof (doorDebounce_flag r w) as Hflag.
  pose proof (doorDebounce_openCount r w) as Hopen.
  pose proof (doorDebounce_closedCount r w) as Hclosed.
  unfold DEBOUNCE_COUNT in Hflag.
  set (w1 := exec (doorDebounce r) w) in *.
  cbn [longestRun] in Hrun. unfold opposingCount in Hc.
  assert (Hw1 : doorOpenWarningActive w1 = doorOpenWarningActive w
                /\ exists c1, opposingCount w1 = Z.of_nat c1
                   /\ Z.of_nat (longestRun (negb (doorOpenWarningActive w)) c1 rs) < 3).
  { unfold opposingCount. rewrite Hflag, Hopen, Hclosed.
    destruct (doorOpenWarningActive w), r; cbn [negb Bool.eqb] in *.
    - split; [reflexivity | ]. exists 0%nat; cbn. split; [reflexivity | lia].
    - pose proof (longestRun_ge false rs (S c)).
      rewrite Hc, wrap32_small by (unfold INT_MIN, INT_MAX; lia).
      replace (Z.of_nat c + 1 <? 3) with true by (symmetry; apply Z.ltb_lt; lia).
      split; [reflexivity | ]. exists (S c). split; [lia | assumption].
    - pose proof (longestRun_ge true rs (S c)).
      rewrite Hc, wrap32_small by (unfold INT_MIN, INT_MAX; lia).
      replace (3 <=? Z.of_nat c + 1) with false by (symmetry; apply Z.leb_gt; lia).
      split; [reflexivity | ]. exists (S c). split; [lia | assumption].
    - split; [reflexivity | ]. exists 0%nat; cbn. split; [reflexivity | lia]. }
  destruct Hw1 as (Hsame & c1 & Hc1 & Hrun1).
  rewrite <- Hsame. apply (IH w1 c1 Hc1). rewrite Hsame. exact Hrun1.
Qed.

(** The overload flag is the raw comparison of the last poll. *)
Lemma overloadUpdate_flag fsr w :
  overloadWarningActive (exec (overloadUpdate fsr) w) = isOverloaded fsr.
Proof.
  change (wp (overloadUpdate fsr)
            (fun _ w' => overloadWarningActive w' = isOverloaded fsr) w).
  unfold overloadUpdate. wp_go; try reflexivity.
  match goal with
  | H : negb (Bool.eqb _ _) = false |- _ =>
      apply negb_false_iff, eqb_prop in H; symmetry; exact H
  end.
Qed.

(** ** The order of floats *)

(** Case analysis on the integer comparisons inside a float comparison. *)
Ltac cmp_cases :=
  repeat match goal with
    | H : context [Z.compare ?a ?b] |- _ => destruct (Z.compare_spec a b); subst
    | |- context [Z.compare ?a ?b] => destruct (Z.compare_spec a b); subst
    | H : context [Pos.compare_cont Eq ?a ?b] |- _ =>
        change (Pos.compare_cont Eq a b) with (Pos.compare a b) in *;
        destruct (Pos.compare_spec a b); subst
    | |- context [Pos.compare_cont Eq ?a ?b] =>
        change (Pos.compare_cont Eq a b) with (Pos.compare a b) in *;
        destruct (Pos.compare_spec a b); subst
    end;
  cbn [CompOpp] in *; try discriminate; try reflexivity; try lia.

(** The order of floats: [x < a] is excluded by [a < b <= x], and by
    [a <= x]. *)
Lemma ltb_leb_trans a b x :
  F32.ltb a b = true -> F32.leb b x = true -> F32.ltb x a = false.
Proof.
  unfold F32.ltb, F32.leb, SFltb, SFleb.
  destruct a as [sa | sa | | sa ma ea], b as [sb | sb | | sb mb eb],
    x as [sx | sx | | sx mx ex]; cbn [SFcompare];
    try discriminate; try reflexivity;
    repeat match goal with s : bool |- _ => destruct s end;
    try discriminate; try reflexivity; intros Hab Hbx; cmp_cases.
Qed.

Lemma leb_not_ltb x y : F32.leb x y = true -> F32.ltb y x = false.
Proof.
  unfold F32.ltb, F32.leb, SFltb, SFleb.
  destruct x as [sx | sx | | sx mx ex], y as [sy | sy | | sy my ey]; cbn [SFcompare];
    try discriminate; try reflexivity;
    repeat match goal with s : bool |- _ => destruct s end;
    try discriminate; try reflexivity; intros H; cmp_cases.
Qed.

Lemma leb_trans x y z :
  F32.leb x y = true -> F32.leb y z = true -> F32.leb x z = true.
Proof.
  unfold F32.leb, SFleb.
  destruct x as [sx | sx | | sx mx ex], y as [sy | sy | | sy my ey],
    z as [sz | sz | | sz mz ez]; cbn [SFcompare];
    try discriminate; try reflexivity;
    repeat match goal with s : bool |- _ => destruct s end;
    try discriminate; try reflexivity; intros Hxy Hyz; cmp_cases.
Qed.

(** ** The wash cycle *)

Lemma countdownFrom_S n : countdownFrom (S n) = Z.of_nat (S n) :: countdownFrom n.
Proof.
  unfold countdownFrom. rewrite seq_S, rev_app_distr. reflexivity.
Qed.

Lemma exec_countdownLoop n w :
  exec (countdownLoop n) w =
    set_trace (trace w ++ flat_map (stepOutput (systemState w)) (countdownFrom n)) w.
Proof.
  revert w; induction n as [|n IH]; intro w.
  - cbn. rewrite app_nil_r. destruct w; reflexivity.
  - rewrite countdownFrom_S. cbn [countdownLoop flat_map].
    change (wp (updateDisplay (Z.of_nat (S n)) ;;
                printf (LogCountdown (Z.of_nat (S n))) ;; countdownLoop n)
              (fun _ w' => w' = set_trace
                 (trace w ++ stepOutput (systemState w) (Z.of_nat (S n))
                    ++ flat_map (stepOutput (systemState w)) (countdownFrom n)) w) w).
    wp_go. eapply wp_exec; [apply IH | ]. fields. world_eq.
Qed.

Lemma exec_completionBeeps n w :
  exec (completionBeeps n) w = set_trace (trace w ++ tonesOutput n) w.
Proof.
  revert w; induction n as [|n IH]; intro w.
  - cbn. rewrite app_nil_r. destruct w; reflexivity.
  - change (wp (playBeep (F32.of_int 1000) 200 ;; wait_us 200000 ;; completionBeeps n)
              (fun _ w' => w' = set_trace (trace w ++ tonesOutput (S n)) w) w).
    wp_go. eapply wp_exec; [apply IH | ]. fields.
    unfold tonesOutput. cbn [repeat concat]. world_eq.
Qed.

Lemma exec_runCycleCountdown minutes w :
  exec (runCycleCountdown minutes) w =
    set_trace (trace w ++ cycleOutput (systemState w) minutes) w.
Proof.
  change (wp (runCycleCountdown minutes)
            (fun _ w' => w' = set_trace
               (trace w ++ cycleOutput (systemState w) minutes) w) w).
  unfold runCycleCountdown. wp_step.
  eapply wp_exec; [apply exec_countdownLoop | ]. wp_go.
  eapply wp_exec; [apply exec_completionBeeps | ]. fields.
  unfold cycleOutput. world_eq.
Qed.

(** Symbolic execution under hypotheses on the initial world: [tac]
    rewrites with them after every step. *)
Ltac wp_bools :=
  cbn [when Z.b2z Z.eqb Pos.eqb andb negb orb SystemState_eqb AnalogIn_eqb
       DigitalIn_eqb] in *.

Ltac wp_simpl tac := fields; wp_bools; tac; wp_bools.

Ltac wp_using tac :=
  repeat (wp_simpl tac; try discriminate;
          first [ wp_step | wp_call
                | eapply wp_exec; [apply exec_runCycleCountdown | ] ]);
  wp_simpl tac; try discriminate.

Section StartButton.

Variables (hw : Hardware) (w : World).

(** The start button fires: first read low, last level high, system on. *)
Hypothesis pressed :
  digital_signal hw startPauseButton (digitalReads w startPauseButton) = false.
Hypothesis released_before : lastStartState w = 1.
Hypothesis idle : systemState w = IDLE.

Lemma handleStartButton_rejects :
  doorOpenWarningActive w = true \/ overloadWarningActive w = true ->
  let w' := exec (handleStartButton hw) w in
  systemState w' = IDLE
  /\ trace w' =
       trace w ++ [Printf (if doorOpenWarningActive w then LogCannotStartDoor
                           else LogCannotStartOverload)]
         ++ beepOutput (F32.of_int 300) 500
  /\ (forall p, analogReads w' p = analogReads w p).
Proof.
  intros Hflag w'. subst w'.
  change (wp (handleStartButton hw) (fun _ w' =>
    systemState w' = IDLE
    /\ trace w' =
         trace w ++ [Printf (if doorOpenWarningActive w then LogCannotStartDoor
                             else LogCannotStartOverload)]
           ++ beepOutput (F32.of_int 300) 500
    /\ (forall p, analogReads w' p = analogReads w p)) w).
  unfold handleStartButton.
  destruct Hflag as [Hd | Ho].
  - wp_using ltac:(rewrite ?pressed, ?released_before, ?idle, ?Hd).
    all: rewrite <- ?app_assoc; auto.
  - destruct (doorOpenWarningActive w) eqn:Hd.
    + wp_using ltac:(rewrite ?pressed, ?released_before, ?idle, ?Hd).
      all: rewrite <- ?app_assoc; auto.
    + wp_using ltac:(rewrite ?pressed, ?released_before, ?idle, ?Hd, ?Ho).
      all: rewrite <- ?app_assoc; auto.
Qed.

Lemma handleStartButton_starts :
  doorOpenWarningActive w = false -> overloadWarningActive w = false ->
  let rpm := potSetting (analog_signal hw potRPM (analogReads w potRPM)) f7 100 in
  let temp := potSetting (analog_signal hw potTemp (analogReads w potTemp)) f4 10 in
  let time := startTime (analog_signal hw potTime (analogReads w potTime)) in
  let w' := exec (handleStartButton hw) w in
  systemState w' = IDLE
  /\ trace w' =
       trace w ++ [Printf (LogStartingCycle rpm temp time)]
         ++ beepOutput (F32.of_int 700) 100
         ++ cycleOutput RUNNING time
         ++ [Printf LogCycleEnded].
Proof.
  intros Hd Ho rpm temp time w'. subst w'.
  change (wp (handleStartButton hw) (fun _ w' =>
    systemState w' = IDLE
    /\ trace w' =
         trace w ++ [Printf (LogStartingCycle rpm temp time)]
           ++ beepOutput (F32.of_int 700) 100
           ++ cycleOutput RUNNING time
           ++ [Printf LogCycleEnded]) w).
  unfold handleStartButton.
  wp_using ltac:(rewrite ?pressed, ?released_before, ?idle, ?Hd, ?Ho).
  all: rewrite <- ?app_assoc; auto.
Qed.

End StartButton.

(** Frame proofs through the calls. *)
Ltac frame_obs :=
  first [ assumption | intros ? ?; reflexivity ].

Ltac frame_call :=
  match goal with
  | |- preserves _ (playBeep _ _) => apply preserves_playBeep; frame_obs
  | |- preserves _ (setRGB _ _ _) => apply preserves_setRGB; frame_obs
  | |- preserves _ (setLoadLevelColor _) => apply preserves_setLoadLevelColor; frame_obs
  | |- preserves _ (updateDisplay _) => apply preserves_updateDisplay; frame_obs
  | |- preserves _ (runCycleCountdown _) => apply preserves_runCycleCountdown; frame_obs
  | |- preserves _ (readAveragedSensor _ _ _) =>
      apply preserves_readAveragedSensor; frame_obs
  | |- preserves _ (isDoorOpen _) => apply preserves_isDoorOpen; frame_obs
  end.

Ltac frames := repeat first [frame_step | frame_call].

Section ButtonFrames.

Variable hw : Hardware.

Lemma handlePowerButton_lastStartState :
  preserves lastStartState (handlePowerButton hw).
Proof. unfold handlePowerButton, powerOn, powerOff; frames. Qed.

Lemma handlePowerButton_startReads :
  preserves (fun w => digitalReads w startPauseButton) (handlePowerButton hw).
Proof. unfold handlePowerButton, powerOn, powerOff; frames. Qed.

Lemma handlePowerButton_analogReads p :
  preserves (fun w => analogReads w p) (handlePowerButton hw).
Proof. unfold handlePowerButton, powerOn, powerOff; frames. Qed.

(** When the power handling leaves the system in IDLE, it has not
    touched the warning flags. *)
Lemma handlePowerButton_idle_flags w :
  systemState (exec (handlePowerButton hw) w) = IDLE ->
  doorOpenWarningActive (exec (handlePowerButton hw) w) = doorOpenWarningActive w
  /\ overloadWarningActive (exec (handlePowerButton hw) w) = overloadWarningActive w.
Proof.
  change (wp (handlePowerButton hw) (fun _ w' =>
    systemState w' = IDLE ->
    doorOpenWarningActive w' = doorOpenWarningActive w
    /\ overloadWarningActive w' = overloadWarningActive w) w).
  unfold handlePowerButton, powerOn, powerOff.
  wp_go; intros; try discriminate; auto.
Qed.

End ButtonFrames.

(** ** The main loop *)

Lemma cycleOutput_allowed (P : LogLine -> Prop) st minutes :
  (forall i, P (LogCountdown i)) -> P LogCycleComplete ->
  Forall (allowed P) (cycleOutput st minutes).
Proof.
  intros H1 H2.
  destruct (logs_runCycleCountdown P minutes H1 H2 (set_systemState st initialWorld))
    as (out & E & F).
  rewrite exec_runCycleCountdown in E. cbn [trace set_trace set_systemState systemState] in E.
  apply app_inv_head in E. rewrite E. exact F.
Qed.

(** Closing a goal on the events appended to a trace. *)
Ltac appended :=
  eexists; split; [rewrite <- ?app_assoc; reflexivity | ];
  repeat first [ apply Forall_nil
               | apply cycleOutput_allowed
               | apply Forall_cons
               | apply Forall_app; split ];
  cbn [allowed]; auto; try discriminate.

Section MainLoop.

Variable hw : Hardware.

Lemma readAndProcessSensors_systemState :
  preserves systemState (readAndProcessSensors hw).
Proof.
  unfold readAndProcessSensors, doorDebounce, overloadUpdate; frames.
Qed.

Lemma handlePowerButton_not_running w :
  systemState w <> RUNNING ->
  systemState (exec (handlePowerButton hw) w) <> RUNNING.
Proof.
  change (systemState w <> RUNNING ->
          wp (handlePowerButton hw) (fun _ w' => systemState w' <> RUNNING) w).
  intro H. unfold handlePowerButton, powerOn, powerOff.
  wp_go; auto; discriminate.
Qed.

Lemma handleStartButton_not_running w :
  systemState w <> RUNNING ->
  systemState (exec (handleStartButton hw) w) <> RUNNING
  /\ exists out,
       trace (exec (handleStartButton hw) w) = trace w ++ out
       /\ Forall (allowed notInProgress) out.
Proof.
  change (systemState w <> RUNNING ->
          wp (handleStartButton hw) (fun _ w' =>
            systemState w' <> RUNNING
            /\ exists out, trace w' = trace w ++ out
                           /\ Forall (allowed notInProgress) out) w).
  intro H. unfold handleStartButton.
  wp_using idtac; try contradiction;
    (split; [auto; congruence | ]);
    try (exists []; rewrite app_nil_r; split; [reflexivity | constructor]);
    try (unfold notInProgress; appended).
Qed.

(** One round: the buttons, then, unless the system is OFF, the sensors. *)
Lemma exec_loopBody w :
  exec (loopBody hw) w =
    afterButtons hw (exec (handleStartButton hw) (exec (handlePowerButton hw) w)).
Proof.
  unfold loopBody, handleButtons. rewrite !exec_bind.
  generalize (exec (handleStartButton hw) (exec (handlePowerButton hw) w)).
  intro w2. rewrite exec_get, eval_get. unfold afterButtons.
  destruct (systemState w2); rewrite ?exec_bind; reflexivity.
Qed.

Lemma loopBody_betweenRounds w :
  betweenRounds w -> betweenRounds (exec (loopBody hw) w).
Proof.
  intros [Hst Htr]. rewrite exec_loopBody.
  pose proof (handlePowerButton_not_running w Hst) as Hst1.
  destruct (logs_handlePowerButton hw notInProgress
              ltac:(discriminate) ltac:(discriminate) w) as (o1 & E1 & F1).
  destruct (handleStartButton_not_running _ Hst1) as (Hst2 & o2 & E2 & F2).
  unfold afterButtons.
  generalize dependent (exec (handleStartButton hw) (exec (handlePowerButton hw) w)).
  intros w2 Hst2 E2.
  assert (Htr2 : Forall (allowed notInProgress) (trace w2)).
  { rewrite E2, E1. repeat (apply Forall_app; split); assumption. }
  destruct (logs_readAndProcessSensors hw notInProgress
              ltac:(discriminate) ltac:(discriminate)
              ltac:(discriminate) ltac:(discriminate) w2) as (o3 & E3 & F3).
  pose proof (readAndProcessSensors_systemState w2) as Hst3.
  generalize dependent (exec (readAndProcessSensors hw) w2). intros w3 E3 Hst3.
  assert (Htr3 : Forall (allowed notInProgress) (trace w3)).
  { rewrite E3. apply Forall_app; split; assumption. }
  unfold betweenRounds.
  destruct (systemState w2) eqn:Hs; [ | | contradiction];
    rewrite exec_wait_us; fields;
    (split; [congruence | apply Forall_app; split; [assumption | ]]);
    repeat constructor.
Qed.

Lemma rounds_betweenRounds n : forall w,
  betweenRounds w -> betweenRounds (exec (rounds hw n) w).
Proof.
  induction n as [|n IH]; intros w Hw; [exact Hw | ].
  cbn [rounds]. rewrite exec_bind. apply IH, loopBody_betweenRounds, Hw.
Qed.

Lemma setup_betweenRounds : betweenRounds (exec setup initialWorld).
Proof.
  split; [discriminate | ]. vm_compute. repeat constructor; discriminate.
Qed.

End MainLoop.

(** ** Counting button events *)

Lemma countLogs_app sel a b :
  countLogs sel (a ++ b) = (countLogs sel a + countLogs sel b)%nat.
Proof. unfold countLogs. rewrite filter_app, length_app. reflexivity. Qed.

Lemma countLogs_allowed sel out :
  Forall (allowed (fun l => sel l = false)) out -> countLogs sel out = 0%nat.
Proof.
  unfold countLogs. induction 1 as [|e out He _ IH]; [reflexivity | ].
  cbn [filter]. destruct e as [l | | | | | ]; cbn [allowed] in He; try exact IH.
  rewrite He. exact IH.
Qed.

Lemma countLogs_logs {A} sel (c : M A) w :
  logs (fun l => sel l = false) c ->
  countLogs sel (trace (exec c w)) = countLogs sel (trace w).
Proof.
  intro H. destruct (H w) as (out & E & F).
  rewrite E, countLogs_app, (countLogs_allowed sel out F). lia.
Qed.

(** Evaluating the number of selected lines of an explicit trace. *)
Ltac count_lines :=
  unfold powerEvents, startEvents; fields;
  rewrite ?countLogs_app;
  rewrite ?(countLogs_allowed _ _ (cycleOutput_allowed _ _ _ (fun _ => eq_refl) eq_refl));
  cbn [countLogs filter length beepOutput rgbOutput app isPowerLine isStartLine];
  try lia.

Section PowerButton.

Variables (hw : Hardware) (w : World) (last level : bool).

Hypothesis last_level : lastPowerState w = Z.b2z last.
Hypothesis first_read :
  digital_signal hw powerButton (digitalReads w powerButton) = level.
Hypothesis second_read :
  digital_signal hw powerButton (S (digitalReads w powerButton)) = level.

Lemma handlePowerButton_edge :
  let w' := exec (handlePowerButton hw) w in
  digitalReads w' powerButton = S (S (digitalReads w powerButton))
  /\ lastPowerState w' = Z.b2z level
  /\ powerEvents w' = (powerEvents w + if last && negb level then 1 else 0)%nat.
Proof.
  intro w'. subst w'.
  change (wp (handlePowerButton hw) (fun _ w' =>
    digitalReads w' powerButton = S (S (digitalReads w powerButton))
    /\ lastPowerState w' = Z.b2z level
    /\ powerEvents w' = (powerEvents w + if last && negb level then 1 else 0)%nat) w).
  unfold handlePowerButton, powerOn, powerOff.
  destruct last, level;
    wp_using ltac:(rewrite ?first_read, ?second_read, ?last_level);
    (split; [reflexivity | split; [auto | count_lines]]).
Qed.

End PowerButton.

Section StartButtonEdge.

Variables (hw : Hardware) (w : World) (last level : bool).

Hypothesis last_level : lastStartState w = Z.b2z last.
Hypothesis first_read :
  digital_signal hw startPauseButton (digitalReads w startPauseButton) = level.
Hypothesis second_read :
  digital_signal hw startPauseButton (S (digitalReads w startPauseButton)) = level.
Hypothesis system_on : systemState w <> OFF.

Lemma handleStartButton_edge :
  let w' := exec (handleStartButton hw) w in
  digitalReads w' startPauseButton = S (S (digitalReads w startPauseButton))
  /\ lastStartState w' = Z.b2z level
  /\ startEvents w' = (startEvents w + if last && negb level then 1 else 0)%nat
  /\ systemState w' <> OFF.
Proof.
  intro w'. subst w'.
  change (wp (handleStartButton hw) (fun _ w' =>
    digitalReads w' startPauseButton = S (S (digitalReads w startPauseButton))
    /\ lastStartState w' = Z.b2z level
    /\ startEvents w' = (startEvents w + if last && negb level then 1 else 0)%nat
    /\ systemState w' <> OFF) w).
  unfold handleStartButton.
  destruct (systemState w) eqn:Hs; [congruence | | ];
    destruct last, level;
    wp_using ltac:(rewrite ?first_read, ?second_read, ?last_level, ?Hs);
    (split; [reflexivity | split; [auto | split; [count_lines | ]]]);
    auto; discriminate.
Qed.

End StartButtonEdge.

Section Rounds.

Variable hw : Hardware.

Lemma logs_handleStartButton (P : LogLine -> Prop) :
  P LogCannotStartDoor -> P LogCannotStartOverload ->
  (forall rpm temp time, P (LogStartingCycle rpm temp time)) ->
  (forall i, P (LogCountdown i)) -> P LogCycleComplete -> P LogCycleEnded ->
  P LogCycleInProgress ->
  logs P (handleStartButton hw).
Proof.
  intros. unfold handleStartButton; logs_run;
    auto using logs_playBeep, logs_runCycleCountdown.
Qed.

(** What the rest of a round leaves alone. *)

Lemma handleStartButton_power :
  preserves (fun w => (digitalReads w powerButton, lastPowerState w))
    (handleStartButton hw).
Proof. unfold handleStartButton; frames. Qed.

Lemma readAndProcessSensors_buttons :
  preserves (fun w => (digitalReads w powerButton, lastPowerState w,
                       (digitalReads w startPauseButton, lastStartState w)))
    (readAndProcessSensors hw).
Proof. unfold readAndProcessSensors, doorDebounce, overloadUpdate; frames. Qed.

Lemma handlePowerButton_released w :
  digital_signal hw powerButton (digitalReads w powerButton) = true ->
  digital_signal hw powerButton (S (digitalReads w powerButton)) = true ->
  let w' := exec (handlePowerButton hw) w in
  digitalReads w' powerButton = S (S (digitalReads w powerButton))
  /\ systemState w' = systemState w
  /\ trace w' = trace w.
Proof.
  intros H1 H2 w'. subst w'.
  change (wp (handlePowerButton hw) (fun _ w' =>
    digitalReads w' powerButton = S (S (digitalReads w powerButton))
    /\ systemState w' = systemState w
    /\ trace w' = trace w) w).
  unfold handlePowerButton.
  wp_using ltac:(rewrite ?H1, ?H2); auto.
Qed.

Lemma afterButtons_buttons w2 :
  digitalReads (afterButtons hw w2) powerButton = digitalReads w2 powerButton
  /\ lastPowerState (afterButtons hw w2) = lastPowerState w2
  /\ digitalReads (afterButtons hw w2) startPauseButton = digitalReads w2 startPauseButton
  /\ lastStartState (afterButtons hw w2) = lastStartState w2
  /\ systemState (afterButtons hw w2) = systemState w2.
Proof.
  pose proof (readAndProcessSensors_buttons w2) as Hb.
  pose proof (readAndProcessSensors_systemState hw w2) as Hs.
  unfold afterButtons. cbv beta in Hb.
  generalize dependent (exec (readAndProcessSensors hw) w2).
  intros w3 Hb Hs. injection Hb as Hb1 Hb2 Hb3 Hb4.
  destruct (systemState w2) eqn:E; rewrite exec_wait_us; fields;
    rewrite ?Hb1, ?Hb2, ?Hb3, ?Hb4, ?Hs; auto.
Qed.

Lemma afterButtons_events sel w2 :
  (forall rpm temp time, sel (LogSettings rpm temp time) = false) ->
  (forall fsr t d, sel (LogSensors fsr t d) = false) ->
  sel LogOverloadWarning = false -> sel LogLoadAcceptable = false ->
  countLogs sel (trace (afterButtons hw w2)) = countLogs sel (trace w2).
Proof.
  intros H1 H2 H3 H4.
  pose proof (countLogs_logs sel (readAndProcessSensors hw) w2
                (logs_readAndProcessSensors hw _ H1 H2 H3 H4)) as Hc.
  unfold afterButtons.
  generalize dependent (exec (readAndProcessSensors hw) w2). intros w3 Hc.
  destruct (systemState w2); rewrite exec_wait_us; fields;
    rewrite countLogs_app, ?Hc; cbn [countLogs filter length]; lia.
Qed.

End Rounds.

Section RoundEdges.

Variable hw : Hardware.

(** One round, seen from the power button. *)
Lemma loopBody_power_edge w last level :
  lastPowerState w = Z.b2z last ->
  digital_signal hw powerButton (digitalReads w powerButton) = level ->
  digital_signal hw powerButton (S (digitalReads w powerButton)) = level ->
  let w' := exec (loopBody hw) w in
  digitalReads w' powerButton = S (S (digitalReads w powerButton))
  /\ lastPowerState w' = Z.b2z level
  /\ powerEvents w' = (powerEvents w + if last && negb level then 1 else 0)%nat.
Proof.
  intros Hlast H1 H2 w'. subst w'. rewrite exec_loopBody.
  destruct (handlePowerButton_edge hw w last level Hlast H1 H2) as (Hr & Hl & He).
  pose proof (handleStartButton_power hw (exec (handlePowerButton hw) w)) as Hf.
  cbv beta in Hf. injection Hf as Hfr Hfl.
  pose proof (countLogs_logs isPowerLine (handleStartButton hw)
                (exec (handlePowerButton hw) w)
                (logs_handleStartButton hw _ eq_refl eq_refl
                   (fun _ _ _ => eq_refl) (fun _ => eq_refl) eq_refl eq_refl eq_refl))
    as Hfe.
  destruct (afterButtons_buttons hw
              (exec (handleStartButton hw) (exec (handlePowerButton hw) w)))
    as (Ar & Al & _).
  unfold powerEvents in *.
  rewrite Ar, Al, afterButtons_events by reflexivity.
  rewrite Hfr, Hfl, Hfe. auto.
Qed.

(** One round, seen from the start button, while the system is on and
    the power button is released. *)
Lemma loopBody_start_edge w last level :
  systemState w <> OFF ->
  digital_signal hw powerButton (digitalReads w powerButton) = true ->
  digital_signal hw powerButton (S (digitalReads w powerButton)) = true ->
  lastStartState w = Z.b2z last ->
  digital_signal hw startPauseButton (digitalReads w startPauseButton) = level ->
  digital_signal hw startPauseButton (S (digitalReads w startPauseButton)) = level ->
  let w' := exec (loopBody hw) w in
  systemState w' <> OFF
  /\ digitalReads w' powerButton = S (S (digitalReads w powerButton))
  /\ digitalReads w' startPauseButton = S (S (digitalReads w startPauseButton))
  /\ lastStartState w' = Z.b2z level
  /\ startEvents w' = (startEvents w + if last && negb level then 1 else 0)%nat.
Proof.
  intros Hon Hp1 Hp2 Hlast H1 H2 w'. subst w'. rewrite exec_loopBody.
  destruct (handlePowerButton_released hw w Hp1 Hp2) as (Pr & Ps & Pt).
  pose proof (handlePowerButton_lastStartState hw w) as Pl.
  pose proof (handlePowerButton_startReads hw w) as Pc. cbv beta in Pc.
  set (w1 := exec (handlePowerButton hw) w) in *.
  assert (Hon1 : systemState w1 <> OFF) by (rewrite Ps; exact Hon).
  assert (Hlast1 : lastStartState w1 = Z.b2z last) by (rewrite Pl; exact Hlast).
  rewrite <- Pc in H1, H2.
  destruct (handleStartButton_edge hw w1 last level Hlast1 H1 H2 Hon1)
    as (Sr & Sl & Se & Ss).
  pose proof (handleStartButton_power hw w1) as Hf.
  cbv beta in Hf. injection Hf as Hfr _.
  destruct (afterButtons_buttons hw (exec (handleStartButton hw) w1))
    as (Ar & _ & Ac & Al & As).
  unfold startEvents in *.
  rewrite Ar, Ac, Al, As, afterButtons_events by reflexivity.
  rewrite Hfr, Pr, Sr, Sl, Se, Pc, Pt. auto.
Qed.

Lemma exec_rounds_S n w :
  exec (rounds hw (S n)) w = exec (rounds hw n) (exec (loopBody hw) w).
Proof. reflexivity. Qed.

Lemma last_cons_default (l : bool) ls : forall d,
  List.last (l :: ls) d = List.last ls l.
Proof.
  revert l; induction ls as [|x ls IH]; intros l d; [reflexivity | ].
  change (List.last (l :: x :: ls) d) with (List.last (x :: ls) d).
  rewrite (IH x d), (IH x l). reflexivity.
Qed.

(** The events and the level a detector holds after a sequence of
    rounds. *)
Lemma power_button_rounds levels : forall w last,
  lastPowerState w = Z.b2z last ->
  seenLevels hw powerButton (digitalReads w powerButton) levels = true ->
  let w' := exec (rounds hw (length levels)) w in
  powerEvents w' = (powerEvents w + pressEdges last levels)%nat
  /\ lastPowerState w' = Z.b2z (List.last levels last).
Proof.
  induction levels as [|l ls IH]; intros w last Hlast Hseen.
  - cbn. split; [lia | exact Hlast].
  - cbn [seenLevels] in Hseen.
    apply andb_prop in Hseen as [Hseen Hrest].
    apply andb_prop in Hseen as [H1 H2].
    apply eqb_prop in H1, H2.
    destruct (loopBody_power_edge w last l Hlast H1 H2) as (Hr & Hl & He).
    cbn [length]. rewrite exec_rounds_S.
    rewrite <- Hr in Hrest.
    destruct (IH _ l Hl Hrest) as (IHe & IHl).
    cbv zeta. rewrite IHe, IHl, He. cbn [pressEdges].
    split; [lia | ]. rewrite last_cons_default. reflexivity.
Qed.

Lemma start_button_rounds levels : forall w last,
  systemState w <> OFF ->
  lastStartState w = Z.b2z last ->
  seenLevels hw powerButton (digitalReads w powerButton)
    (repeat true (length levels)) = true ->
  seenLevels hw startPauseButton (digitalReads w startPauseButton) levels = true ->
  let w' := exec (rounds hw (length levels)) w in
  startEvents w' = (startEvents w + pressEdges last levels)%nat
  /\ lastStartState w' = Z.b2z (List.last levels last).
Proof.
  induction levels as [|l ls IH]; intros w last Hon Hlast Hpower Hseen.
  - cbn. split; [lia | exact Hlast].
  - cbn [seenLevels length repeat] in Hseen, Hpower.
    apply andb_prop in Hseen as [Hseen Hrest].
    apply andb_prop in Hseen as [H1 H2].
    apply andb_prop in Hpower as [Hpower Hprest].
    apply andb_prop in Hpower as [P1 P2].
    apply eqb_prop in H1, H2, P1, P2.
    destruct (loopBody_start_edge w last l Hon P1 P2 Hlast H1 H2)
      as (Hon' & Hpr & Hsr & Hl & He).
    cbn [length]. rewrite exec_rounds_S.
    rewrite <- Hpr in Hprest. rewrite <- Hsr in Hrest.
    destruct (IH _ l Hon' Hl Hprest Hrest) as (IHe & IHl).
    cbv zeta. rewrite IHe, IHl, He. cbn [pressEdges].
    split; [lia | ]. rewrite last_cons_default. reflexivity.
Qed.

End RoundEdges.

(** ** Binary32 arithmetic of the time setting *)

Lemma digits2_pos_bounds m :
  2 ^ (Zpos (digits2_pos m) - 1) <= Zpos m < 2 ^ Zpos (digits2_pos m).
Proof.
  induction m as [m IH | m IH | ]; cbn [digits2_pos].
  - rewrite Pos2Z.inj_succ. change (Zpos m~1) with (2 * Zpos m + 1).
    replace (Z.succ (Zpos (digits2_pos m)) - 1) with (Z.succ (Zpos (digits2_pos m) - 1))
      by lia.
    rewrite !Z.pow_succ_r by lia. lia.
  - rewrite Pos2Z.inj_succ. change (Zpos m~0) with (2 * Zpos m).
    replace (Z.succ (Zpos (digits2_pos m)) - 1) with (Z.succ (Zpos (digits2_pos m) - 1))
      by lia.
    rewrite !Z.pow_succ_r by lia. lia.
  - cbn. lia.
Qed.

(** What [valid] says about a finite number. *)
Lemma bounded_inv m e :
  bounded F32.prec F32.emax m e = true ->
  -149 <= e <= 104
  /\ Zpos (digits2_pos m) <= 24
  /\ (e = -149 \/ Zpos (digits2_pos m) = 24).
Proof.
  unfold bounded, canonical_mantissa, fexp, emin, F32.prec, F32.emax.
  intro H. apply andb_prop in H as [H1 H2].
  apply Z.eqb_eq in H1. apply Z.leb_le in H2. lia.
Qed.

Lemma mul8_digits m : digits2_pos (m * 8388608) = (digits2_pos m + 23)%positive.
Proof.
  rewrite Pos.mul_comm. cbn [Pos.mul digits2_pos]. lia.
Qed.

(** Finishing a product whose first shift has been carried out: the
    rounding is exact and the second shift is empty. *)
Ltac finish_mul8 :=
  cbn [shr_m loc_of_shr_record round_nearest_even Zdigits2 digits2_pos];
  match goal with
  | |- context [shr ?r ?e0 ?n] =>
      replace n with 0
        by (unfold fexp, emin, F32.prec, F32.emax; lia)
  end;
  cbn [shr shr_m];
  match goal with
  | |- context [?a <=? ?b] =>
      replace (a <=? b) with true
        by (symmetry; apply Z.leb_le; unfold F32.prec, F32.emax; lia)
  end;
  do 2 eexists; split; [reflexivity | split; [lia | ]].

Lemma mul8_exact m e :
  bounded F32.prec F32.emax m e = true -> e <= -23 ->
  exists m' e',
    F32.mul (S754_finite false m e) f8 = S754_finite false m' e'
    /\ -149 <= e' < 0
    /\ Zpos m' * 2 ^ (e' + 149) = 8 * (Zpos m * 2 ^ (e + 149)).
Proof.
  intros Hb He. destruct (bounded_inv m e Hb) as (Hr & Hd & Hc).
  unfold F32.mul, f8. cbn [SFmul xorb].
  unfold binary_round_aux, shr_fexp. cbn [Zdigits2].
  rewrite mul8_digits.
  assert (Hn : Zpos (digits2_pos m) = 24
               \/ (e = -149
                   /\ (Zpos (digits2_pos m) <= 21 \/ Zpos (digits2_pos m) = 22
                       \/ Zpos (digits2_pos m) = 23))) by lia.
  rewrite (Pos.mul_comm m 8388608). cbn [Pos.mul].
  destruct Hn as [H24 | [-> [H21 | [H22 | H23]]]].
  - replace (fexp F32.prec F32.emax (Zpos (digits2_pos m + 23) + (e + -20)) - (e + -20))
      with 23 by (unfold fexp, emin, F32.prec, F32.emax; lia).
    cbn [shr shr_record_of_loc iter_pos shr_1 orb].
    finish_mul8.
    replace (e + -20 + 23 + 149) with (3 + (e + 149)) by lia.
    rewrite Z.pow_add_r by lia. lia.
  - replace (fexp F32.prec F32.emax (Zpos (digits2_pos m + 23) + (-149 + -20))
             - (-149 + -20))
      with 20 by (unfold fexp, emin, F32.prec, F32.emax; lia).
    cbn [shr shr_record_of_loc iter_pos shr_1 orb].
    finish_mul8. cbn. lia.
  - replace (fexp F32.prec F32.emax (Zpos (digits2_pos m + 23) + (-149 + -20))
             - (-149 + -20))
      with 21 by (unfold fexp, emin, F32.prec, F32.emax; lia).
    cbn [shr shr_record_of_loc iter_pos shr_1 orb].
    finish_mul8. cbn. lia.
  - replace (fexp F32.prec F32.emax (Zpos (digits2_pos m + 23) + (-149 + -20))
             - (-149 + -20))
      with 22 by (unfold fexp, emin, F32.prec, F32.emax; lia).
    cbn [shr shr_record_of_loc iter_pos shr_1 orb].
    finish_mul8. cbn. lia.
Qed.

Lemma round_mag_scaled m e :
  -149 <= e < 0 ->
  F32.round_mag m e = (Zpos m * 2 ^ (e + 149) + 2 ^ 148) / 2 ^ 149.
Proof.
  intro He. unfold F32.round_mag.
  replace (0 <=? e) with false by (symmetry; apply Z.leb_gt; lia).
  rewrite <- (Z.div_mul_cancel_r (Zpos m + 2 ^ (- e - 1)) (2 ^ (- e)) (2 ^ (e + 149)))
    by (apply Z.pow_nonzero; lia).
  rewrite Z.mul_add_distr_r, <- !Z.pow_add_r by lia.
  replace (- e - 1 + (e + 149)) with 148 by lia.
  replace (- e + (e + 149)) with 149 by lia.
  reflexivity.
Qed.

Lemma to_int_roundf_small m e :
  e < 0 -> 0 <= F32.round_mag m e <= 8 ->
  F32.to_int (F32.roundf (S754_finite false m e)) = F32.round_mag m e.
Proof.
  intros He Hr. unfold F32.roundf.
  replace (0 <=? e) with false by (symmetry; apply Z.leb_gt; lia).
  assert (Hcases : F32.round_mag m e = 0 \/ F32.round_mag m e = 1
                   \/ F32.round_mag m e = 2 \/ F32.round_mag m e = 3
                   \/ F32.round_mag m e = 4 \/ F32.round_mag m e = 5
                   \/ F32.round_mag m e = 6 \/ F32.round_mag m e = 7
                   \/ F32.round_mag m e = 8) by lia.
  repeat (destruct Hcases as [-> | Hcases]; [reflexivity | ]).
  rewrite Hcases. reflexivity.
Qed.

(** The order of valid non-negative numbers is the order of their scaled
    values. *)
Lemma scaled_nonneg x : 0 <= scaled x.
Proof.
  destruct x as [ | | | [|] m e]; cbn [scaled]; lia.
Qed.

Lemma scaled_le x y :
  F32.valid x = true -> F32.valid y = true ->
  F32.leb f0 x = true -> F32.leb x y = true -> F32.leb y f1 = true ->
  scaled x <= scaled y.
Proof.
  intros Vx Vy H0 Hxy H1.
  destruct x as [sx | [|] | | [|] mx ex]; try discriminate;
    try apply scaled_nonneg;
    destruct y as [sy | [|] | | [|] my ey]; try discriminate.
  cbn [F32.valid valid_binary] in Vx, Vy.
  destruct (bounded_inv mx ex Vx) as (Hrx & Hdx & Hcx).
  destruct (bounded_inv my ey Vy) as (Hry & Hdy & Hcy).
  pose proof (digits2_pos_bounds mx) as Bx.
  pose proof (digits2_pos_bounds my) as By.
  cbn [scaled].
  unfold F32.leb, SFleb in Hxy. cbn [SFcompare] in Hxy.
  destruct (Z.compare_spec ex ey) as [-> | Hlt | Hgt]; [ | | discriminate].
  - change (Pos.compare_cont Eq mx my) with (Pos.compare mx my) in Hxy.
    destruct (Pos.compare_spec mx my) as [-> | Hm | Hm]; try discriminate; [lia | ].
    apply Z.mul_le_mono_nonneg_r; [apply Z.pow_nonneg; lia | lia].
  - assert (Hy24 : Zpos (digits2_pos my) = 24) by lia.
    rewrite Hy24 in By. change (24 - 1) with 23 in By.
    assert (Hx24 : Zpos mx < 2 ^ 24).
    { eapply Z.lt_le_trans; [apply Bx | ]. apply Z.pow_le_mono_r; lia. }
    apply Z.le_trans with (2 ^ 24 * 2 ^ (ex + 149)).
    + apply Z.mul_le_mono_nonneg_r; [apply Z.pow_nonneg; lia | lia].
    + apply Z.le_trans with (2 ^ 23 * 2 ^ (ey + 149)).
      * rewrite <- !Z.pow_add_r by lia. apply Z.pow_le_mono_r; lia.
      * apply Z.mul_le_mono_nonneg_r; [apply Z.pow_nonneg; lia | lia].
Qed.

Lemma timeSteps_scaled x :
  F32.valid x = true -> F32.leb f0 x = true -> F32.leb x f1 = true ->
  timeSteps x = (8 * scaled x + 2 ^ 148) / 2 ^ 149 /\ 0 <= timeSteps x <= 8.
Proof.
  intros Vx H0 H1.
  assert (Hs : scaled x <= 2 ^ 149).
  { change (2 ^ 149) with (scaled f1).
    apply scaled_le; try assumption; reflexivity. }
  pose proof (scaled_nonneg x) as Hs0.
  assert (Hr : 0 <= (8 * scaled x + 2 ^ 148) / 2 ^ 149 <= 8).
  { split; [apply Z.div_pos; lia | ].
    apply Z.lt_succ_r, Z.div_lt_upper_bound; [lia | ].
    change (2 ^ 149) with (2 * 2 ^ 148) in *. lia. }
  enough (timeSteps x = (8 * scaled x + 2 ^ 148) / 2 ^ 149) as E
      by (rewrite E; split; [reflexivity | exact Hr]).
  destruct x as [sx | [|] | | [|] m e]; try discriminate.
  - destruct sx; reflexivity.
  - assert (He : e <= -23).
    { unfold F32.leb, SFleb, f1 in H1. cbn [SFcompare] in H1.
      destruct (Z.compare_spec e (-23)); try lia; discriminate. }
    destruct (mul8_exact m e Vx He) as (m' & e' & Emul & He' & Eval).
    unfold timeSteps. rewrite Emul.
    cbn [scaled] in *. rewrite <- Eval in *.
    rewrite <- (round_mag_scaled m' e' He') in *.
    apply to_int_roundf_small; [lia | exact Hr].
Qed.

Lemma time_of_steps x :
  0 <= timeSteps x <= 8 ->
  timeSetting x = 10 * (timeSteps x + 1) /\ startTime x = 10 * (timeSteps x + 1).
Proof.
  unfold timeSetting, startTime. fold (timeSteps x).
  intro Hs.
  assert (Hcases : timeSteps x = 0 \/ timeSteps x = 1 \/ timeSteps x = 2
                   \/ timeSteps x = 3 \/ timeSteps x = 4 \/ timeSteps x = 5
                   \/ timeSteps x = 6 \/ timeSteps x = 7 \/ timeSteps x = 8) by lia.
  repeat (destruct Hcases as [-> | Hcases]; [split; reflexivity | ]).
  rewrite Hcases. split; reflexivity.
Qed.

(** ** A sensor poll is one debounce step *)

Lemma doorDebounce_doorVars r w1 w2 :
  doorVars w1 = doorVars w2 ->
  doorVars (exec (doorDebounce r) w1) = doorVars (exec (doorDebounce r) w2).
Proof.
  unfold doorVars. intro H. injection H as Hf Ho Hc.
  rewrite !doorDebounce_flag, !doorDebounce_openCount, !doorDebounce_closedCount.
  rewrite Hf, Ho, Hc. reflexivity.
Qed.

Lemma doorStepBy_after {A B} (c : M A) (k : A -> M B) :
  preserves doorVars c -> (forall a, doorStepBy (k a)) -> doorStepBy (bind c k).
Proof.
  intros Hc Hk w. rewrite exec_bind.
  destruct (Hk (eval c w) (exec c w)) as [r Hr]. exists r.
  rewrite Hr. apply doorDebounce_doorVars, Hc.
Qed.

Lemma doorStepBy_then r (k : M unit) :
  preserves doorVars k -> doorStepBy (doorDebounce r ;; k).
Proof.
  intros Hk w. exists r. rewrite exec_bind. apply Hk.
Qed.

(** Whatever the pins deliver, a poll of the sensors changes the door flag
    and its counters exactly as [doorDebounce] does on the reading of the
    poll. *)
Lemma readAndProcessSensors_door hw : doorStepBy (readAndProcessSensors hw).
Proof.
  unfold readAndProcessSensors.
  repeat (apply doorStepBy_after; [solve [frames] | intro]).
  apply doorStepBy_then. unfold overloadUpdate. frames.
Qed.

(** And it leaves the overload flag equal to the raw comparison of the
    averaged load of that poll. *)
Lemma overload_flag_after {A B} (c : M A) (k : A -> M B) :
  (forall a w, exists fsr, overloadWarningActive (exec (k a) w) = isOverloaded fsr) ->
  forall w, exists fsr, overloadWarningActive (exec (bind c k) w) = isOverloaded fsr.
Proof. intros H w. rewrite exec_bind. apply H. Qed.

Lemma readAndProcessSensors_overload hw w :
  exists fsr,
    overloadWarningActive (exec (readAndProcessSensors hw) w) = isOverloaded fsr.
Proof.
  revert w. unfold readAndProcessSensors.
  repeat match goal with
         | |- forall w, exists fsr,
                overloadWarningActive (exec (bind _ _) w) = _ =>
             apply overload_flag_after; intro
         end.
  intro w. eexists. apply overloadUpdate_flag.
Qed.

(** * The door and overload flags *)

(** C3.  From the flag inactive and both counters zero, three consecutive
    open readings raise the door flag on the third poll and not before;
    from the flag active (closed counter zero), three consecutive closed
    readings clear it on the third poll and not before; and whenever a poll
    clears the flag, the reading was closed and the closed counter has
    reached [DEBOUNCE_COUNT]. *)
Theorem door_flag_flips_on_third_reading (w : World) :
  (doorOpenWarningActive w = false -> doorOpenCount w = 0 -> doorClosedCount w = 0 ->
     doorOpenWarningActive (exec (doorPolls [true]) w) = false
     /\ doorOpenWarningActive (exec (doorPolls [true; true]) w) = false
     /\ doorOpenWarningActive (exec (doorPolls [true; true; true]) w) = true)
  /\ (doorOpenWarningActive w = true -> doorClosedCount w = 0 ->
     doorOpenWarningActive (exec (doorPolls [false]) w) = true
     /\ doorOpenWarningActive (exec (doorPolls [false; false]) w) = true
     /\ doorOpenWarningActive (exec (doorPolls [false; false; false]) w) = false)
  /\ (forall r, doorOpenWarningActive w = true ->
        doorOpenWarningActive (exec (doorDebounce r) w) = false ->
        r = false /\ DEBOUNCE_COUNT <= doorClosedCount (exec (doorDebounce r) w)).
Proof.
  split; [ | split].
  - intros Hf Ho Hc.
    rewrite !exec_doorPolls_cons. cbn [doorPolls]. rewrite !exec_ret.
    repeat (rewrite ?doorDebounce_flag, ?doorDebounce_openCount,
              ?doorDebounce_closedCount).
    rewrite Hf, Ho. repeat split; reflexivity.
  - intros Hf Hc.
    rewrite !exec_doorPolls_cons. cbn [doorPolls]. rewrite !exec_ret.
    repeat (rewrite ?doorDebounce_flag, ?doorDebounce_openCount,
              ?doorDebounce_closedCount).
    rewrite Hf, Hc. repeat split; reflexivity.
  - intros r Hf Hoff.
    rewrite doorDebounce_flag, Hf in Hoff. apply Z.ltb_ge in Hoff.
    split; [ | exact Hoff].
    rewrite doorDebounce_closedCount in Hoff. destruct r; [ | reflexivity].
    unfold DEBOUNCE_COUNT in Hoff; lia.
Qed.

Lemma door_flag_flips_on_third_reading_witness :
  doorOpenWarningActive (exec (doorPolls [true]) initialWorld) = false
  /\ doorOpenWarningActive (exec (doorPolls [true; true]) initialWorld) = false
  /\ doorOpenWarningActive (exec (doorPolls [true; true; true]) initialWorld) = true.
Proof.
  apply (proj1 (door_flag_flips_on_third_reading initialWorld)); reflexivity.
Defined.

(** C1 (amended).  Door flag: from a state whose opposing counter is zero,
    a sequence of readings in which every block of consecutive readings
    opposing the flag is shorter than [DEBOUNCE_COUNT] never changes the
    flag, at any point of the sequence.  Overload flag: it is not debounced;
    after each poll it equals the raw comparison of that poll's load. *)
Theorem door_flag_debounced_overload_flag_raw :
  (forall w rs,
     opposingCount w = 0 ->
     Z.of_nat (longestRun (negb (doorOpenWarningActive w)) 0 rs) < DEBOUNCE_COUNT ->
     forall k,
       doorOpenWarningActive (exec (doorPolls (firstn k rs)) w) = doorOpenWarningActive w)
  /\ (forall fsr w,
        overloadWarningActive (exec (overloadUpdate fsr) w) = isOverloaded fsr).
Proof.
  split.
  - intros w rs Hc Hrun k.
    apply (door_flag_stable (firstn k rs) w 0%nat Hc).
    pose proof (longestRun_firstn (negb (doorOpenWarningActive w)) rs k 0%nat). lia.
  - exact overloadUpdate_flag.
Qed.

Lemma door_flag_debounced_overload_flag_raw_witness :
  doorOpenWarningActive
    (exec (doorPolls (firstn 5 [true; true; false; true; false])) initialWorld) = false.
Proof.
  apply (proj1 door_flag_debounced_overload_flag_raw initialWorld
           [true; true; false; true; false]); [reflexivity | vm_compute; reflexivity].
Defined.

(** * The load classifier *)

(** C6.  [setLoadLevelColor] shows a tier for every float (it is total and
    does not clamp), with half-open intervals at the ascending thresholds
    0.2, 0.4, 0.6, 0.7: below 0.2 Light, [0.2, 0.4) Normal, [0.4, 0.6)
    Medium, [0.6, 0.7) Heavy, and Overload for every other float, which
    includes every load >= 0.7; the load 0.2 itself is Normal. *)
Theorem load_classifier_intervals (load : float) :
  (F32.ltb load LOAD_LIGHT = true -> setLoadLevelColor load = showTier Light)
  /\ (F32.leb LOAD_LIGHT load = true -> F32.ltb load LOAD_MEDIUM = true ->
      setLoadLevelColor load = showTier Normal)
  /\ (F32.leb LOAD_MEDIUM load = true -> F32.ltb load LOAD_HEAVY = true ->
      setLoadLevelColor load = showTier Medium)
  /\ (F32.leb LOAD_HEAVY load = true -> F32.ltb load LOAD_OVERLOAD = true ->
      setLoadLevelColor load = showTier Heavy)
  /\ (F32.leb LOAD_OVERLOAD load = true -> setLoadLevelColor load = showTier Overload)
  /\ (F32.ltb load LOAD_LIGHT = false -> F32.ltb load LOAD_MEDIUM = false ->
      F32.ltb load LOAD_HEAVY = false -> F32.ltb load LOAD_OVERLOAD = false ->
      setLoadLevelColor load = showTier Overload)
  /\ (exists t, setLoadLevelColor load = showTier t)
  /\ setLoadLevelColor LOAD_LIGHT = showTier Normal.
Proof.
  assert (Hlm : F32.ltb LOAD_LIGHT LOAD_MEDIUM = true) by reflexivity.
  assert (Hmh : F32.ltb LOAD_MEDIUM LOAD_HEAVY = true) by reflexivity.
  assert (Hho : F32.ltb LOAD_HEAVY LOAD_OVERLOAD = true) by reflexivity.
  assert (Hlh : F32.ltb LOAD_LIGHT LOAD_HEAVY = true) by reflexivity.
  assert (Hlo : F32.ltb LOAD_LIGHT LOAD_OVERLOAD = true) by reflexivity.
  assert (Hmo : F32.ltb LOAD_MEDIUM LOAD_OVERLOAD = true) by reflexivity.
  unfold setLoadLevelColor.
  split; [ | split; [ | split; [ | split; [ | split; [ | split; [ | split]]]]]].
  - intros ->. reflexivity.
  - intros H1 ->. rewrite (leb_not_ltb _ _ H1). reflexivity.
  - intros H1 ->.
    rewrite (leb_not_ltb _ _ H1), (ltb_leb_trans _ _ _ Hlm H1). reflexivity.
  - intros H1 ->.
    rewrite (leb_not_ltb _ _ H1), (ltb_leb_trans _ _ _ Hlh H1),
      (ltb_leb_trans _ _ _ Hmh H1). reflexivity.
  - intros H1.
    rewrite (leb_not_ltb _ _ H1), (ltb_leb_trans _ _ _ Hlo H1),
      (ltb_leb_trans _ _ _ Hmo H1), (ltb_leb_trans _ _ _ Hho H1). reflexivity.
  - intros -> -> -> ->. reflexivity.
  - destruct (F32.ltb load LOAD_LIGHT); [exists Light; reflexivity | ].
    destruct (F32.ltb load LOAD_MEDIUM); [exists Normal; reflexivity | ].
    destruct (F32.ltb load LOAD_HEAVY); [exists Medium; reflexivity | ].
    destruct (F32.ltb load LOAD_OVERLOAD); [exists Heavy | exists Overload]; reflexivity.
  - reflexivity.
Qed.

Lemma load_classifier_intervals_witness :
  setLoadLevelColor (F32.lit 3 1) = showTier Normal
  /\ setLoadLevelColor (F32.lit 75 2) = showTier Overload.
Proof.
  split.
  - apply (proj1 (proj2 (load_classifier_intervals (F32.lit 3 1)))); reflexivity.
  - apply (proj1 (proj2 (proj2 (proj2 (proj2 (load_classifier_intervals (F32.lit 75 2)))))));
      reflexivity.
Defined.

(** * The time setting *)

(** C5.  The minutes computed from the time potentiometer, at both places
    of the code, are a function of the raw sample that is monotonic
    non-decreasing on the valid binary32 values of [0, 1], stays within
    10..90 there (it never exceeds 90; the value captured at cycle start is
    at most 90 for any sample at all), and maps 1.0 to 90 and 0.0 to 10. *)
Theorem time_setting_monotone_clamped :
  (forall x y,
     F32.valid x = true -> F32.valid y = true ->
     F32.leb f0 x = true -> F32.leb x y = true -> F32.leb y f1 = true ->
     timeSetting x <= timeSetting y /\ startTime x <= startTime y)
  /\ (forall x,
        F32.valid x = true -> F32.leb f0 x = true -> F32.leb x f1 = true ->
        10 <= timeSetting x <= 90 /\ startTime x = timeSetting x)
  /\ (forall x, startTime x <= 90)
  /\ timeSetting f1 = 90 /\ timeSetting f0 = 10
  /\ startTime f1 = 90 /\ startTime f0 = 10.
Proof.
  split; [ | split; [ | split; [ | repeat split; reflexivity]]].
  - intros x y Vx Vy H0 Hxy H1.
    assert (Hx1 : F32.leb x f1 = true) by (exact (leb_trans x y f1 Hxy H1)).
    assert (Hy0 : F32.leb f0 y = true) by (exact (leb_trans f0 x y H0 Hxy)).
    destruct (timeSteps_scaled x Vx H0 Hx1) as [Ex Bx].
    destruct (timeSteps_scaled y Vy Hy0 H1) as [Ey By].
    destruct (time_of_steps x Bx) as [-> ->].
    destruct (time_of_steps y By) as [-> ->].
    assert (timeSteps x <= timeSteps y).
    { rewrite Ex, Ey. apply Z.div_le_mono; [lia | ].
      pose proof (scaled_le x y Vx Vy H0 Hxy H1). lia. }
    lia.
  - intros x Vx H0 H1.
    destruct (timeSteps_scaled x Vx H0 H1) as [_ Bx].
    destruct (time_of_steps x Bx) as [-> ->]. lia.
  - intro x. unfold startTime.
    match goal with |- (if ?t >? 90 then _ else _) <= _ =>
      destruct (Z.gtb_spec t 90); lia
    end.
Qed.

Lemma time_setting_monotone_clamped_witness :
  timeSetting (F32.lit 3 1) <= timeSetting (F32.lit 55 2)
  /\ startTime (F32.lit 3 1) <= startTime (F32.lit 55 2).
Proof.
  apply (proj1 time_setting_monotone_clamped (F32.lit 3 1) (F32.lit 55 2));
    reflexivity.
Defined.

(** * Starting a cycle *)

(** C2.  When the start button fires while the system is in IDLE (as it is
    once the power button has been handled) and the door flag or the
    overload flag is active, [handleButtons] leaves the system in IDLE, emits
    exactly the rejection line and the rejection tone, reads no
    potentiometer (no analog pin at all), and prints neither a cycle-start
    line nor a settings line. *)
Theorem start_refused_when_door_or_overload (hw : Hardware) (w : World) :
  let w1 := exec (handlePowerButton hw) w in
  let w2 := exec (handleButtons hw) w in
  systemState w1 = IDLE ->
  digital_signal hw startPauseButton (digitalReads w startPauseButton) = false ->
  lastStartState w = 1 ->
  doorOpenWarningActive w = true \/ overloadWarningActive w = true ->
  systemState w2 = IDLE
  /\ trace w2 =
       trace w1 ++ [Printf (if doorOpenWarningActive w then LogCannotStartDoor
                            else LogCannotStartOverload)]
         ++ beepOutput (F32.of_int 300) 500
  /\ (forall p, analogReads w2 p = analogReads w p)
  /\ (exists out,
        trace w2 = trace w ++ out
        /\ Forall (allowed (fun l =>
                     match l with
                     | LogStartingCycle _ _ _ | LogSettings _ _ _ => False
                     | _ => True
                     end)) out).
Proof.
  intros w1 w2 Hidle Hpressed Hlast Hflag.
  destruct (handlePowerButton_idle_flags hw w Hidle) as [Hd Ho].
  fold w1 in Hd, Ho.
  assert (Hpressed1 :
            digital_signal hw startPauseButton (digitalReads w1 startPauseButton) = false).
  { unfold w1. rewrite (handlePowerButton_startReads hw w). exact Hpressed. }
  assert (Hlast1 : lastStartState w1 = 1).
  { unfold w1. rewrite (handlePowerButton_lastStartState hw w). exact Hlast. }
  assert (Hflag1 : doorOpenWarningActive w1 = true \/ overloadWarningActive w1 = true).
  { rewrite Hd, Ho. exact Hflag. }
  destruct (handleStartButton_rejects hw w1 Hpressed1 Hlast1 Hidle Hflag1)
    as (Hst & Htr & Hreads).
  change (exec (handleStartButton hw) w1) with w2 in Hst, Htr, Hreads.
  rewrite Hd in Htr.
  split; [exact Hst | split; [exact Htr | split]].
  - intro p. rewrite Hreads. apply (handlePowerButton_analogReads hw p w).
  - destruct (logs_handlePowerButton hw
                (fun l => match l with
                          | LogStartingCycle _ _ _ | LogSettings _ _ _ => False
                          | _ => True
                          end) I I w) as (out1 & E1 & F1).
    fold w1 in E1. rewrite Htr, E1, <- app_assoc.
    eexists; split; [reflexivity | ].
    apply Forall_app; split; [exact F1 | ].
    destruct (doorOpenWarningActive w); repeat constructor.
Qed.

Lemma start_refused_when_door_or_overload_witness :
  systemState
    (exec (handleButtons overloadedMachine)
       (exec (main overloadedMachine 2) initialWorld)) = IDLE.
Proof.
  apply (start_refused_when_door_or_overload overloadedMachine
           (exec (main overloadedMachine 2) initialWorld));
    [ vm_compute; reflexivity | vm_compute; reflexivity | vm_compute; reflexivity
    | right; vm_compute; reflexivity ].
Defined.

(** C8 (amended).  For M = 10k minutes, k in 1..9, the countdown run in
    state RUNNING counts from k = M / 10 down to 1, writing the digit of the
    counter to the display and printing a progress line at each step; it
    then writes the digit 0 (pattern 0x3F, the display is not blanked),
    prints the completion line and plays exactly three tones.  A start
    button press accepted in IDLE runs this countdown for the captured time
    and leaves the system in IDLE. *)
Theorem cycle_countdown_sequence :
  (forall w k,
     1 <= k <= 9 -> systemState w = RUNNING ->
     trace (exec (runCycleCountdown (10 * k)) w) =
       trace w
       ++ flat_map (fun i => [SegDisWrite (nth (Z.to_nat i) hexDis 0);
                              Printf (LogCountdown i)])
            (countdownFrom (Z.to_nat k))
       ++ [SegDisWrite 0x3F; Printf LogCycleComplete]
       ++ tonesOutput 3)
  /\ (forall hw w,
        systemState w = IDLE ->
        doorOpenWarningActive w = false -> overloadWarningActive w = false ->
        lastStartState w = 1 ->
        digital_signal hw startPauseButton (digitalReads w startPauseButton) = false ->
        let rpm := potSetting (analog_signal hw potRPM (analogReads w potRPM)) f7 100 in
        let temp := potSetting (analog_signal hw potTemp (analogReads w potTemp)) f4 10 in
        let time := startTime (analog_signal hw potTime (analogReads w potTime)) in
        let w' := exec (handleStartButton hw) w in
        systemState w' = IDLE
        /\ trace w' =
             trace w ++ [Printf (LogStartingCycle rpm temp time)]
               ++ beepOutput (F32.of_int 700) 100
               ++ cycleOutput RUNNING time
               ++ [Printf LogCycleEnded]).
Proof.
  split.
  - intros w k Hk Hst. rewrite exec_runCycleCountdown, Hst. cbn [trace set_trace].
    f_equal.
    assert (Hcases : k = 1 \/ k = 2 \/ k = 3 \/ k = 4 \/ k = 5 \/ k = 6 \/ k = 7
                     \/ k = 8 \/ k = 9) by lia.
    repeat (destruct Hcases as [-> | Hcases]; [reflexivity | ]).
    subst k; reflexivity.
  - intros hw w Hidle Hd Ho Hlast Hpressed.
    exact (handleStartButton_starts hw w Hpressed Hlast Hidle Hd Ho).
Qed.

Lemma cycle_countdown_sequence_witness :
  systemState
    (exec (handleStartButton lightMachine)
       (exec (main lightMachine 2) initialWorld)) = IDLE.
Proof.
  refine (proj1 (proj2 cycle_countdown_sequence lightMachine
                   (exec (main lightMachine 2) initialWorld) _ _ _ _ _));
    vm_compute; reflexivity.
Defined.

(** C8, as stated, fails: after a completed cycle the last pattern written
    to the display is 0x3F, the digit 0, and not the blank pattern 0x00. *)
Lemma display_shows_zero_after_cycle :
  let w := exec (main lightMachine 2) initialWorld in
  let w' := exec (handleButtons lightMachine) w in
  last (trace w') (WaitUs 0) = Printf LogCycleEnded
  /\ systemState w' = IDLE
  /\ lastDisplay (trace w') = Some 0x3F
  /\ lastDisplay (trace w') <> Some 0x00.
Proof.
  vm_compute. repeat split; discriminate.
Qed.

(** * Power off *)

(** C7 (amended).  [powerOff] leaves the system OFF with both warning
    flags inactive; it does not touch the previous-reading variables (nor
    the door counters), which keep the values they had. *)
Theorem powerOff_clears_flags_keeps_previous_readings (w : World) :
  let w' := exec powerOff w in
  systemState w' = OFF
  /\ doorOpenWarningActive w' = false
  /\ overloadWarningActive w' = false
  /\ prevFsr w' = prevFsr w
  /\ prevLdr w' = prevLdr w
  /\ prevTempActual w' = prevTempActual w
  /\ doorOpenCount w' = doorOpenCount w
  /\ doorClosedCount w' = doorClosedCount w.
Proof.
  change (wp powerOff (fun _ w' =>
    systemState w' = OFF
    /\ doorOpenWarningActive w' = false
    /\ overloadWarningActive w' = false
    /\ prevFsr w' = prevFsr w
    /\ prevLdr w' = prevLdr w
    /\ prevTempActual w' = prevTempActual w
    /\ doorOpenCount w' = doorOpenCount w
    /\ doorClosedCount w' = doorClosedCount w) w).
  unfold powerOff. wp_go. repeat split; reflexivity.
Qed.

(** C7, as stated, fails: after power on and one sensor poll, power off
    leaves the previous load reading at 0.75, not at the sentinel -1. *)
Lemma powerOff_keeps_previous_load :
  let w := exec (main overloadedMachine 2) initialWorld in
  systemState w = IDLE
  /\ prevFsr (exec powerOff w) = F32.lit 75 2
  /\ prevFsr (exec powerOff w) <> F32.of_int (-1).
Proof.
  vm_compute. repeat split; discriminate.
Qed.

(** * The overload threshold *)

(** C1, as stated, fails for the overload flag: one poll with the load at
    0.75 raises the flag, with its warning line, from the inactive state. *)
Lemma overload_flag_set_by_one_sample :
  let w := exec (main overloadedMachine 1) initialWorld in
  let w' := exec (loopBody overloadedMachine) w in
  overloadWarningActive w = false
  /\ overloadWarningActive w' = true
  /\ countLogs isOverloadWarning (trace w) = 0%nat
  /\ countLogs isOverloadWarning (trace w') = 1%nat.
Proof.
  vm_compute. repeat split.
Qed.

(** C9.  At a load equal to the threshold [LOAD_OVERLOAD] the LED shows the
    Overload colour, while [isOverloaded] is false: the poll leaves the
    overload flag inactive and prints no overload warning, and a start
    button press that follows (system in IDLE, door flag inactive) starts
    the cycle. *)
Theorem threshold_load_shown_red_not_overloaded :
  setLoadLevelColor LOAD_OVERLOAD = showTier Overload
  /\ isOverloaded LOAD_OVERLOAD = false
  /\ (forall w, overloadWarningActive (exec (overloadUpdate LOAD_OVERLOAD) w) = false)
  /\ logs (fun l => l <> LogOverloadWarning) (overloadUpdate LOAD_OVERLOAD)
  /\ (forall hw w,
        let w1 := exec (overloadUpdate LOAD_OVERLOAD) w in
        systemState w1 = IDLE -> doorOpenWarningActive w1 = false ->
        lastStartState w1 = 1 ->
        digital_signal hw startPauseButton (digitalReads w1 startPauseButton) = false ->
        exists rpm temp time,
          In (Printf (LogStartingCycle rpm temp time))
            (trace (exec (handleStartButton hw) w1))).
Proof.
  split; [reflexivity | split; [reflexivity | split; [ | split]]].
  - intro w. rewrite overloadUpdate_flag. reflexivity.
  - unfold overloadUpdate. change (isOverloaded LOAD_OVERLOAD) with false.
    logs_run. discriminate.
  - intros hw w w1 Hidle Hdoor Hlast Hpressed.
    assert (Ho : overloadWarningActive w1 = false).
    { unfold w1. rewrite overloadUpdate_flag. reflexivity. }
    destruct (handleStartButton_starts hw w1 Hpressed Hlast Hidle Hdoor Ho) as [_ Htr].
    do 3 eexists. rewrite Htr. apply in_or_app. right. left. reflexivity.
Qed.

Lemma threshold_load_shown_red_not_overloaded_witness :
  exists rpm temp time,
    In (Printf (LogStartingCycle rpm temp time))
      (trace (exec (handleStartButton lightMachine)
                (exec (overloadUpdate LOAD_OVERLOAD)
                   (exec (main lightMachine 2) initialWorld)))).
Proof.
  apply (proj2 (proj2 (proj2 (proj2 threshold_load_shown_red_not_overloaded)))
           lightMachine (exec (main lightMachine 2) initialWorld));
    vm_compute; reflexivity.
Defined.

(** * The button edge detectors *)

Lemma pressEdges_held n rest :
  pressEdges false (repeat false n ++ rest) = pressEdges false rest.
Proof. induction n as [|n IH]; [reflexivity | exact IH]. Qed.

Lemma pressEdges_released n rest :
  pressEdges true (repeat true n ++ rest) = pressEdges true rest.
Proof. induction n as [|n IH]; [reflexivity | exact IH]. Qed.

(** ** The detectors on arbitrary reads *)

Section TwoReads.

Variable hw : Hardware.

(** The power handling on the two reads it makes. *)
Lemma handlePowerButton_reads w :
  let r1 := digital_signal hw powerButton (digitalReads w powerButton) in
  let r2 := digital_signal hw powerButton (S (digitalReads w powerButton)) in
  let fires := (lastPowerState w =? 1) && negb r1 in
  let w' := exec (handlePowerButton hw) w in
  digitalReads w' powerButton = S (S (digitalReads w powerButton))
  /\ (lastPowerState w' =? 1) = r2 || ((lastPowerState w =? 1) && negb fires)
  /\ powerEvents w' = (powerEvents w + if fires then 1 else 0)%nat
  /\ negb (SystemState_eqb (systemState w') OFF)
     = xorb (negb (SystemState_eqb (systemState w) OFF)) fires.
Proof.
  cbv zeta.
  change (wp (handlePowerButton hw) (fun _ w' =>
    digitalReads w' powerButton = S (S (digitalReads w powerButton))
    /\ (lastPowerState w' =? 1)
       = digital_signal hw powerButton (S (digitalReads w powerButton))
         || ((lastPowerState w =? 1)
             && negb ((lastPowerState w =? 1)
                      && negb (digital_signal hw powerButton
                                 (digitalReads w powerButton))))
    /\ powerEvents w'
       = (powerEvents w
          + if (lastPowerState w =? 1)%Z
               && negb (digital_signal hw powerButton (digitalReads w powerButton))
            then 1 else 0)%nat
    /\ negb (SystemState_eqb (systemState w') OFF)
       = xorb (negb (SystemState_eqb (systemState w) OFF))
           ((lastPowerState w =? 1)
            && negb (digital_signal hw powerButton (digitalReads w powerButton)))) w).
  unfold handlePowerButton, powerOn, powerOff.
  destruct (digital_signal hw powerButton (digitalReads w powerButton)) eqn:H1,
    (digital_signal hw powerButton (S (digitalReads w powerButton))) eqn:H2,
    (lastPowerState w =? 1) eqn:Hl, (systemState w) eqn:Hs;
    wp_using ltac:(rewrite ?H1, ?H2, ?Hl, ?Hs);
    cbn [xorb orb andb negb];
    (split; [reflexivity | split; [auto | split; [count_lines | reflexivity]]]).
Qed.

(** The start handling on the two reads it makes. *)
Lemma handleStartButton_reads w :
  let r1 := digital_signal hw startPauseButton (digitalReads w startPauseButton) in
  let r2 := digital_signal hw startPauseButton (S (digitalReads w startPauseButton)) in
  let fires :=
    (lastStartState w =? 1) && negb r1 && negb (SystemState_eqb (systemState w) OFF) in
  let w' := exec (handleStartButton hw) w in
  digitalReads w' startPauseButton = S (S (digitalReads w startPauseButton))
  /\ (lastStartState w' =? 1) = r2 || ((lastStartState w =? 1) && negb fires)
  /\ startEvents w' = (startEvents w + if fires then 1 else 0)%nat
  /\ negb (SystemState_eqb (systemState w') OFF)
     = negb (SystemState_eqb (systemState w) OFF).
Proof.
  cbv zeta.
  change (wp (handleStartButton hw) (fun _ w' =>
    digitalReads w' startPauseButton = S (S (digitalReads w startPauseButton))
    /\ (lastStartState w' =? 1)
       = digital_signal hw startPauseButton (S (digitalReads w startPauseButton))
         || ((lastStartState w =? 1)
             && negb ((lastStartState w =? 1)
                      && negb (digital_signal hw startPauseButton
                                 (digitalReads w startPauseButton))
                      && negb (SystemState_eqb (systemState w) OFF)))
    /\ startEvents w'
       = (startEvents w
          + if (lastStartState w =? 1)%Z
               && negb (digital_signal hw startPauseButton
                          (digitalReads w startPauseButton))
               && negb (SystemState_eqb (systemState w) OFF)
            then 1 else 0)%nat
    /\ negb (SystemState_eqb (systemState w') OFF)
       = negb (SystemState_eqb (systemState w) OFF)) w).
  unfold handleStartButton.
  destruct (digital_signal hw startPauseButton (digitalReads w startPauseButton)) eqn:H1,
    (digital_signal hw startPauseButton (S (digitalReads w startPauseButton))) eqn:H2,
    (lastStartState w =? 1) eqn:Hl, (systemState w) eqn:Hs;
    wp_using ltac:(rewrite ?H1, ?H2, ?Hl, ?Hs);
    cbn [xorb orb andb negb];
    (split; [reflexivity | split; [auto | split; [count_lines | reflexivity]]]).
Qed.

(** One round of the main loop acts on the detectors as [buttonsStep] on
    the reads of the round. *)
Lemma loopBody_buttons w :
  let p := (digital_signal hw powerButton (digitalReads w powerButton),
            digital_signal hw powerButton (S (digitalReads w powerButton))) in
  let s := (digital_signal hw startPauseButton (digitalReads w startPauseButton),
            digital_signal hw startPauseButton (S (digitalReads w startPauseButton))) in
  let w' := exec (loopBody hw) w in
  digitalReads w' powerButton = S (S (digitalReads w powerButton))
  /\ digitalReads w' startPauseButton = S (S (digitalReads w startPauseButton))
  /\ buttonsOf w' = buttonsStep (buttonsOf w) p s.
Proof.
  cbv zeta. rewrite exec_loopBody.
  (* the power button *)
  destruct (handlePowerButton_reads w) as (Pr & Pl & Pe & Ps).
  pose proof (handlePowerButton_lastStartState hw w) as Pls.
  pose proof (handlePowerButton_startReads hw w) as Pc. cbv beta in Pc.
  pose proof (countLogs_logs isStartLine (handlePowerButton hw) w
                (logs_handlePowerButton hw _ eq_refl eq_refl)) as Pse.
  (* the start button *)
  destruct (handleStartButton_reads (exec (handlePowerButton hw) w))
    as (Sr & Sl & Se & Ss).
  pose proof (handleStartButton_power hw (exec (handlePowerButton hw) w)) as Sp.
  cbv beta in Sp. injection Sp as Spr Spl.
  pose proof (countLogs_logs isPowerLine (handleStartButton hw)
                (exec (handlePowerButton hw) w)
                (logs_handleStartButton hw _ eq_refl eq_refl
                   (fun _ _ _ => eq_refl) (fun _ => eq_refl) eq_refl eq_refl eq_refl))
    as Spe.
  (* the rest of the round *)
  destruct (afterButtons_buttons hw
              (exec (handleStartButton hw) (exec (handlePowerButton hw) w)))
    as (Ar & Al & Ac & Als & As).
  pose proof (afterButtons_events hw isPowerLine
                (exec (handleStartButton hw) (exec (handlePowerButton hw) w))
                (fun _ _ _ => eq_refl) (fun _ _ _ => eq_refl) eq_refl eq_refl) as Ape.
  pose proof (afterButtons_events hw isStartLine
                (exec (handleStartButton hw) (exec (handlePowerButton hw) w))
                (fun _ _ _ => eq_refl) (fun _ _ _ => eq_refl) eq_refl eq_refl) as Ase.
  unfold buttonsOf, buttonsStep, powerEvents, startEvents in *.
  cbn [isOn powerLast startLast powerCount startCount fst snd].
  rewrite Ar, Al, Ac, Als, As, Ape, Ase.
  rewrite Spr, Spl, Spe, Sr, Sl, Se, Ss.
  rewrite Pr, Pl, Pe, Ps, Pls, Pc, Pse.
  repeat split.
Qed.

Lemma rounds_buttons n : forall w,
  buttonsOf (exec (rounds hw n) w)
  = buttonsRounds (buttonsOf w)
      (roundReads hw powerButton (digitalReads w powerButton) n)
      (roundReads hw startPauseButton (digitalReads w startPauseButton) n).
Proof.
  induction n as [|n IH]; intro w; [reflexivity | ].
  rewrite exec_rounds_S. cbn [roundReads buttonsRounds].
  destruct (loopBody_buttons w) as (Hp & Hs & Hb).
  rewrite IH, Hp, Hs, Hb. reflexivity.
Qed.

End TwoReads.

(** While the system is OFF the start handling prints nothing; it sets
    [lastStartState] when its second read is high, and only then. *)
Lemma handleStartButton_while_off hw w :
  systemState w = OFF ->
  let w' := exec (handleStartButton hw) w in
  startEvents w' = startEvents w
  /\ lastStartState w'
     = if digital_signal hw startPauseButton (S (digitalReads w startPauseButton))
       then 1 else lastStartState w.
Proof.
  intros Hoff w'. subst w'.
  change (wp (handleStartButton hw) (fun _ w' =>
    startEvents w' = startEvents w
    /\ lastStartState w'
       = if digital_signal hw startPauseButton (S (digitalReads w startPauseButton))
         then 1 else lastStartState w) w).
  unfold handleStartButton.
  destruct (digital_signal hw startPauseButton (S (digitalReads w startPauseButton)))
    eqn:H2;
    wp_using ltac:(rewrite ?H2, ?Hoff); auto;
    rewrite andb_false_r in *; discriminate.
Qed.

(** C4 (amended).  A round of the main loop reads each button twice, and
    for any inputs, from any state, the two detectors act on these reads as
    [buttonsStep]: a detector fires exactly in the rounds whose first read
    is low while its recorded level is 1 (the start detector only if the
    system is not OFF once the power button has been handled); firing
    records 0, and a high second read records 1.  Consequently, over rounds
    in which both reads of a round see the same level:
    - the power button detector fires (one System On / System Off line)
      exactly once per release-to-press transition, and [lastPowerState]
      holds the level of the last round;
    - the start button detector does the same (one start-button line per
      transition, [lastStartState] holds the last level) while the system is
      not OFF (here: the power button is released throughout);
    - so a button held for n > 0 rounds gives one event, and a release
      followed by a new press gives one more.
    While the system is OFF, the start button does not fire, and
    [lastStartState] changes only by a high second read, which records 1: a
    pressed start button neither fires nor updates it. *)
Theorem button_fires_once_per_press (hw : Hardware) :
  (forall w n,
     buttonsOf (exec (rounds hw n) w)
     = buttonsRounds (buttonsOf w)
         (roundReads hw powerButton (digitalReads w powerButton) n)
         (roundReads hw startPauseButton (digitalReads w startPauseButton) n))
  /\ (forall w last levels,
        lastPowerState w = Z.b2z last ->
        seenLevels hw powerButton (digitalReads w powerButton) levels = true ->
        let w' := exec (rounds hw (length levels)) w in
        powerEvents w' = (powerEvents w + pressEdges last levels)%nat
        /\ lastPowerState w' = Z.b2z (List.last levels last))
  /\ (forall w last levels,
        systemState w <> OFF ->
        lastStartState w = Z.b2z last ->
        seenLevels hw powerButton (digitalReads w powerButton)
          (repeat true (length levels)) = true ->
        seenLevels hw startPauseButton (digitalReads w startPauseButton) levels = true ->
        let w' := exec (rounds hw (length levels)) w in
        startEvents w' = (startEvents w + pressEdges last levels)%nat
        /\ lastStartState w' = Z.b2z (List.last levels last))
  /\ (forall w,
        systemState w = OFF ->
        let w' := exec (handleStartButton hw) w in
        startEvents w' = startEvents w
        /\ lastStartState w'
           = if digital_signal hw startPauseButton (S (digitalReads w startPauseButton))
             then 1 else lastStartState w)
  /\ (forall n k m,
        pressEdges true (repeat false (S n)) = 1%nat
        /\ pressEdges true (repeat false (S n) ++ repeat true (S k) ++ repeat false (S m))
           = 2%nat).
Proof.
  split; [ | split; [ | split; [ | split]]].
  - intros w n. apply rounds_buttons.
  - intros w last levels. apply power_button_rounds.
  - intros w last levels. apply start_button_rounds.
  - intros w Hoff. apply handleStartButton_while_off, Hoff.
  - intros n k m.
    assert (H1 : forall j, pressEdges true (repeat false (S j)) = 1%nat).
    { intro j. cbn [repeat pressEdges andb negb].
      rewrite <- (app_nil_r (repeat false j)), pressEdges_held. reflexivity. }
    split; [apply H1 | ].
    cbn [repeat app pressEdges andb negb].
    rewrite pressEdges_held. cbn [pressEdges andb negb].
    rewrite pressEdges_released. change (false :: repeat false m) with (repeat false (S m)).
    rewrite H1. reflexivity.
Qed.

Lemma button_fires_once_per_press_witness :
  let w := exec (main overloadedMachine 1) initialWorld in
  powerEvents (exec (rounds overloadedMachine 3) w)
  = (powerEvents w + pressEdges true [false; true; true])%nat.
Proof.
  refine (proj1 (proj1 (proj2 (button_fires_once_per_press overloadedMachine))
                   (exec (main overloadedMachine 1) initialWorld) true
                   [false; true; true] _ _));
    vm_compute; reflexivity.
Defined.

(** C4, as stated, fails for the start button while the system is OFF:
    with the last level released (1) and the button pressed (0) in a round,
    the detector does not fire, and [lastStartState] stays 1 instead of
    following the level.  The event fires one round later, with the button
    still held, when the power button turns the system on. *)
Lemma start_button_ignored_while_off :
  let w := exec (main startHeldWhileOff 1) initialWorld in
  let w' := exec (loopBody startHeldWhileOff) w in
  let w'' := exec (loopBody startHeldWhileOff) w' in
  lastStartState w = 1
  /\ digital_signal startHeldWhileOff startPauseButton
       (digitalReads w startPauseButton) = false
  /\ digital_signal startHeldWhileOff startPauseButton
       (S (digitalReads w startPauseButton)) = false
  /\ startEvents w' = startEvents w
  /\ lastStartState w' = 1
  /\ startEvents w'' = S (startEvents w').
Proof.
  vm_compute. repeat split.
Qed.

(** * The RUNNING state *)

(** C10.  After any number of rounds of the main loop, that is, whenever
    [handleButtons] is entered, the system is not RUNNING; and the
    cycle-already-in-progress line is never printed. *)
Theorem handleButtons_never_entered_running (hw : Hardware) (n : nat) :
  systemState (exec (main hw n) initialWorld) <> RUNNING
  /\ ~ In (Printf LogCycleInProgress) (trace (exec (main hw n) initialWorld)).
Proof.
  unfold main. rewrite exec_bind.
  destruct (rounds_betweenRounds hw n _ setup_betweenRounds) as [Hst Htr].
  split; [exact Hst | ].
  intro Hin. rewrite Forall_forall in Htr. apply (Htr _ Hin). reflexivity.
Qed.

(** * More properties of the controller *)

(** ** The overload warning *)

Lemma trace_overloadUpdate fsr w :
  trace (exec (overloadUpdate fsr) w) =
    trace w ++
      (if Bool.eqb (isOverloaded fsr) (overloadWarningActive w) then []
       else if isOverloaded fsr
            then Printf LogOverloadWarning :: beepOutput (F32.of_int 500) 100
            else [Printf LogLoadAcceptable]).
Proof.
  change (wp (overloadUpdate fsr) (fun _ w' => trace w' =
    trace w ++
      (if Bool.eqb (isOverloaded fsr) (overloadWarningActive w) then []
       else if isOverloaded fsr
            then Printf LogOverloadWarning :: beepOutput (F32.of_int 500) 100
            else [Printf LogLoadAcceptable])) w).
  unfold overloadUpdate.
  destruct (isOverloaded fsr), (overloadWarningActive w) eqn:E;
    wp_using ltac:(rewrite ?E); rewrite <- ?app_assoc, ?app_nil_r; reflexivity.
Qed.

Lemma exec_overloadPolls_cons fsr rest w :
  exec (overloadPolls (fsr :: rest)) w =
    exec (overloadPolls rest) (exec (overloadUpdate fsr) w).
Proof. reflexivity. Qed.

(** X1.  Over any sequence of loads, the overload warning line is printed
    exactly once per change of the raw condition [load > 0.7] to true, the
    load-acceptable line exactly once per change to false, and nothing is
    printed while the condition stays as it is; the flag ends at the last
    raw condition. *)
Theorem overload_lines_once_per_change (loads : list float) : forall w,
  let raw := map isOverloaded loads in
  let w' := exec (overloadPolls loads) w in
  countLogs isOverloadWarning (trace w')
  = (countLogs isOverloadWarning (trace w)
     + edgesTo true (overloadWarningActive w) raw)%nat
  /\ countLogs isLoadAcceptable (trace w')
     = (countLogs isLoadAcceptable (trace w)
        + edgesTo false (overloadWarningActive w) raw)%nat
  /\ overloadWarningActive w' = List.last raw (overloadWarningActive w).
Proof.
  induction loads as [|fsr rest IH]; intro w.
  - cbn. split; [lia | split; [lia | reflexivity]].
  - cbv zeta. rewrite exec_overloadPolls_cons.
    destruct (IH (exec (overloadUpdate fsr) w)) as (IH1 & IH2 & IH3).
    cbv zeta in IH1, IH2, IH3. rewrite IH1, IH2, IH3.
    rewrite overloadUpdate_flag, trace_overloadUpdate, !countLogs_app.
    cbn [map edgesTo].
    split; [ | split].
    + destruct (isOverloaded fsr), (overloadWarningActive w); cbn; lia.
    + destruct (isOverloaded fsr), (overloadWarningActive w); cbn; lia.
    + symmetry. apply last_cons_default.
Qed.

(** ** The door alert *)

Lemma doorDebounce_systemState r : preserves systemState (doorDebounce r).
Proof. unfold doorDebounce; frames. Qed.

Lemma trace_doorDebounce r w :
  trace (exec (doorDebounce r) w) =
    trace w ++
      (if negb (doorOpenWarningActive w)
          && doorOpenWarningActive (exec (doorDebounce r) w)
          && SystemState_eqb (systemState w) IDLE
       then beepOutput (F32.of_int 700) 200 else []).
Proof.
  rewrite doorDebounce_flag, doorDebounce_openCount, doorDebounce_closedCount.
  change (wp (doorDebounce r) (fun _ w' => trace w' =
    trace w ++
      (if negb (doorOpenWarningActive w)
          && (if doorOpenWarningActive w
              then (if r then 0 else wrap32 (doorClosedCount w + 1)) <? DEBOUNCE_COUNT
              else DEBOUNCE_COUNT <=? (if r then wrap32 (doorOpenCount w + 1) else 0))
          && SystemState_eqb (systemState w) IDLE
       then beepOutput (F32.of_int 700) 200 else [])) w).
  unfold doorDebounce.
  destruct r, (doorOpenWarningActive w) eqn:E; wp_using ltac:(rewrite ?E);
    repeat match goal with
      | H : negb (Bool.eqb ?a _) = _ |- _ =>
          destruct a eqn:?; cbn [negb Bool.eqb andb] in H; try discriminate
      end;
    cbn [negb andb] in *;
    repeat match goal with H : _ = true |- _ => rewrite H end;
    repeat match goal with H : _ = false |- _ => rewrite H end;
    rewrite ?app_nil_r; try reflexivity; try discriminate.
Qed.

Lemma exec_doorPolls_app a : forall b w,
  exec (doorPolls (a ++ b)) w = exec (doorPolls b) (exec (doorPolls a) w).
Proof.
  induction a as [|r a IH]; intros b w; [reflexivity | ].
  cbn [app]. rewrite !exec_doorPolls_cons. apply IH.
Qed.

(** Once the flag is raised, further open readings change neither the flag
    nor the outputs. *)
Lemma doorPolls_open_when_active n : forall w,
  doorOpenWarningActive w = true ->
  doorOpenWarningActive (exec (doorPolls (repeat true n)) w) = true
  /\ trace (exec (doorPolls (repeat true n)) w) = trace w.
Proof.
  induction n as [|n IH]; intros w Hf; [split; [exact Hf | reflexivity] | ].
  cbn [repeat]. rewrite exec_doorPolls_cons.
  assert (Hf1 : doorOpenWarningActive (exec (doorDebounce true) w) = true).
  { rewrite doorDebounce_flag, doorDebounce_closedCount, Hf. reflexivity. }
  destruct (IH _ Hf1) as [IHf IHt]. rewrite IHf, IHt.
  split; [reflexivity | ].
  rewrite trace_doorDebounce, Hf. cbn [negb andb]. apply app_nil_r.
Qed.

(** X2.  The door block prints nothing and sounds the 700 Hz alert exactly
    when a poll raises the door flag while the system is IDLE.  From the flag
    inactive with both counters at zero, [n] consecutive open readings in
    IDLE therefore sound the alert once, at the third reading, and never
    again while the door stays open. *)
Theorem door_alert_once_at_third_reading :
  (forall r w,
     trace (exec (doorDebounce r) w) =
       trace w ++
         (if negb (doorOpenWarningActive w)
             && doorOpenWarningActive (exec (doorDebounce r) w)
             && SystemState_eqb (systemState w) IDLE
          then beepOutput (F32.of_int 700) 200 else []))
  /\ (forall n w,
        systemState w = IDLE -> doorOpenWarningActive w = false ->
        doorOpenCount w = 0 -> doorClosedCount w = 0 ->
        trace (exec (doorPolls (repeat true n)) w) =
          trace w ++ (if (3 <=? n)%nat then beepOutput (F32.of_int 700) 200 else [])).
Proof.
  split; [exact trace_doorDebounce | ].
  intros n w Hst Hf Ho Hc.
  assert (H3 : forall k, (k <= 3)%nat ->
            let wk := exec (doorPolls (repeat true k)) w in
            systemState wk = IDLE
            /\ doorOpenWarningActive wk = (3 <=? k)%nat
            /\ doorOpenCount wk = Z.of_nat k
            /\ trace wk = trace w
                 ++ (if (3 <=? k)%nat then beepOutput (F32.of_int 700) 200 else [])).
  { induction k as [|k IHk]; intro Hk.
    - cbn. rewrite app_nil_r. auto.
    - destruct (IHk ltac:(lia)) as (Ist & If & Io & It).
      replace (S k) with (k + 1)%nat by lia.
      rewrite repeat_app, exec_doorPolls_app. cbn [repeat].
      rewrite exec_doorPolls_cons. cbn [doorPolls]. rewrite exec_ret.
      set (wk := exec (doorPolls (repeat true k)) w) in *.
      cbv zeta.
      rewrite doorDebounce_systemState, trace_doorDebounce, doorDebounce_flag,
        doorDebounce_openCount, If, Io, Ist, It.
      replace (3 <=? k)%nat with false by (symmetry; apply Nat.leb_gt; lia).
      rewrite wrap32_small by (unfold INT_MIN, INT_MAX; lia).
      unfold DEBOUNCE_COUNT.
      assert (Hk3 : k = 0%nat \/ k = 1%nat \/ k = 2%nat) by lia.
      destruct Hk3 as [-> | [-> | ->]]; cbn; rewrite ?app_nil_r; auto. }
  destruct (Nat.le_gt_cases n 3) as [Hn | Hn].
  - apply (H3 n Hn).
  - replace n with (3 + (n - 3))%nat by lia.
    rewrite repeat_app, exec_doorPolls_app.
    destruct (H3 3%nat ltac:(lia)) as (_ & If & _ & It).
    destruct (doorPolls_open_when_active (n - 3) _ If) as [_ Ht].
    rewrite Ht, It.
    replace (3 <=? 3 + (n - 3))%nat with true by (symmetry; apply Nat.leb_le; lia).
    reflexivity.
Qed.

Lemma door_alert_once_at_third_reading_witness :
  trace (exec (doorPolls (repeat true 5)) (set_systemState IDLE initialWorld)) =
    trace (set_systemState IDLE initialWorld) ++ beepOutput (F32.of_int 700) 200.
Proof.
  apply (proj2 door_alert_once_at_third_reading 5%nat
           (set_systemState IDLE initialWorld)); reflexivity.
Defined.

(** ** The door condition on the device *)

Lemma leb_ltb_false x a b :
  F32.leb x a = true -> F32.ltb a b = true -> F32.ltb b x = false.
Proof.
  unfold F32.ltb, F32.leb, SFltb, SFleb.
  destruct a as [sa | sa | | sa ma ea], b as [sb | sb | | sb mb eb],
    x as [sx | sx | | sx mx ex]; cbn [SFcompare];
    try discriminate; try reflexivity;
    repeat match goal with s : bool |- _ => destruct s end;
    try discriminate; try reflexivity; intros Hxa Hab; cmp_cases.
Qed.

Section DoorOnDevice.

Variable hw : Hardware.
Hypothesis in_range : ldrInRange hw.

Lemma isDoorOpen_in_range w : eval (isDoorOpen hw) w = false.
Proof.
  unfold isDoorOpen. rewrite eval_bind, eval_ret.
  apply (leb_ltb_false _ f1); [apply in_range | reflexivity].
Qed.

Lemma doorStepOn_after {A B} r (c : M A) (k : A -> M B) :
  preserves doorVars c -> (forall a, doorStepOn r (k a)) -> doorStepOn r (bind c k).
Proof.
  intros Hc Hk w. rewrite exec_bind, Hk. apply doorDebounce_doorVars, Hc.
Qed.

Lemma readAndProcessSensors_door_closed :
  doorStepOn false (readAndProcessSensors hw).
Proof.
  unfold readAndProcessSensors.
  repeat match goal with
         | |- doorStepOn _ (bind ?c _) =>
             lazymatch c with
             | isDoorOpen _ => fail
             | _ => apply doorStepOn_after; [solve [frames] | intro]
             end
         end.
  intro w. rewrite exec_bind, isDoorOpen_in_range, exec_bind.
  transitivity (doorVars (exec (doorDebounce false) (exec (isDoorOpen hw) w))).
  - match goal with |- doorVars (exec ?k ?w0) = _ =>
      generalize w0; change (preserves doorVars k) end.
    unfold overloadUpdate. frames.
  - apply doorDebounce_doorVars.
    assert (H : preserves doorVars (isDoorOpen hw)) by (unfold isDoorOpen; frames).
    apply H.
Qed.

Lemma handlePowerButton_door_flag w :
  doorOpenWarningActive w = false ->
  doorOpenWarningActive (exec (handlePowerButton hw) w) = false.
Proof.
  change (doorOpenWarningActive w = false ->
          wp (handlePowerButton hw) (fun _ w' => doorOpenWarningActive w' = false) w).
  intro H. unfold handlePowerButton, powerOn, powerOff. wp_go; auto.
Qed.

Lemma handlePowerButton_doorOpenCount :
  preserves doorOpenCount (handlePowerButton hw).
Proof. unfold handlePowerButton, powerOn, powerOff; frames. Qed.

Lemma handleStartButton_door :
  preserves (fun w => (doorOpenWarningActive w, doorOpenCount w))
    (handleStartButton hw).
Proof. unfold handleStartButton; frames. Qed.

Lemma handleStartButton_no_door_refusal w :
  doorOpenWarningActive w = false ->
  countLogs isCannotStartDoor (trace (exec (handleStartButton hw) w))
  = countLogs isCannotStartDoor (trace w).
Proof.
  change (doorOpenWarningActive w = false ->
          wp (handleStartButton hw) (fun _ w' =>
            countLogs isCannotStartDoor (trace w')
            = countLogs isCannotStartDoor (trace w)) w).
  intro H. unfold handleStartButton.
  wp_using ltac:(rewrite ?H);
    rewrite ?countLogs_app;
    rewrite ?(countLogs_allowed _ _
                (cycleOutput_allowed _ _ _ (fun _ => eq_refl) eq_refl));
    cbn [countLogs filter length beepOutput app isCannotStartDoor]; lia.
Qed.

Lemma loopBody_doorNeverOpen w :
  doorNeverOpen w -> doorNeverOpen (exec (loopBody hw) w).
Proof.
  intros (Hf & Ho & Hc). rewrite exec_loopBody.
  pose proof (handlePowerButton_door_flag w Hf) as Hf1.
  pose proof (handlePowerButton_doorOpenCount w) as Ho1.
  pose proof (countLogs_logs isCannotStartDoor (handlePowerButton hw) w
                (logs_handlePowerButton hw _ eq_refl eq_refl)) as Hc1.
  generalize dependent (exec (handlePowerButton hw) w). intros w1 Hf1 Ho1 Hc1.
  pose proof (handleStartButton_door w1) as Hd2. cbv beta in Hd2.
  pose proof (handleStartButton_no_door_refusal w1 Hf1) as Hc2.
  generalize dependent (exec (handleStartButton hw) w1). intros w2 Hd2 Hc2.
  injection Hd2 as Hf2 Ho2.
  pose proof (readAndProcessSensors_door_closed w2) as Hd3.
  pose proof (countLogs_logs isCannotStartDoor (readAndProcessSensors hw) w2
                (logs_readAndProcessSensors hw _ (fun _ _ _ => eq_refl)
                   (fun _ _ _ => eq_refl) eq_refl eq_refl)) as Hc3.
  unfold doorVars in Hd3.
  rewrite doorDebounce_flag, doorDebounce_openCount, doorDebounce_closedCount in Hd3.
  rewrite Hf2, Hf1 in Hd3. cbn in Hd3.
  unfold afterButtons, doorNeverOpen.
  generalize dependent (exec (readAndProcessSensors hw) w2). intros w3 Hd3 Hc3.
  injection Hd3 as Hf3 Ho3 _.
  destruct (systemState w2); rewrite exec_wait_us; fields;
    rewrite countLogs_app; cbn [countLogs filter length];
    repeat split; try congruence; lia.
Qed.

Lemma rounds_doorNeverOpen n : forall w,
  doorNeverOpen w -> doorNeverOpen (exec (rounds hw n) w).
Proof.
  induction n as [|n IH]; intros w Hw; [exact Hw | ].
  rewrite exec_rounds_S. apply IH, loopBody_doorNeverOpen, Hw.
Qed.

End DoorOnDevice.

(** X3.  [isDoorOpen] compares the raw sample of the light sensor, which
    [AnalogIn::read] delivers in [0, 1], with the threshold 40.0.  So with
    every light-sensor sample at most 1.0 the door is never seen open: after
    any number of rounds of [main] the door flag is inactive, the open
    counter is zero, and no start has been refused because of the door. *)
Theorem door_never_open_on_device (hw : Hardware) (n : nat) :
  (forall k, F32.leb (analog_signal hw ldrSensor k) f1 = true) ->
  let w := exec (main hw n) initialWorld in
  doorOpenWarningActive w = false
  /\ doorOpenCount w = 0
  /\ countLogs isCannotStartDoor (trace w) = 0%nat.
Proof.
  intro Hrange. unfold main. cbv zeta. rewrite exec_bind.
  apply (rounds_doorNeverOpen hw Hrange n).
  repeat split.
Qed.

Lemma door_never_open_on_device_witness :
  doorOpenWarningActive (exec (main overloadedMachine 3) initialWorld) = false.
Proof.
  apply (door_never_open_on_device overloadedMachine 3).
  intro k. reflexivity.
Defined.

(** ** The power button *)

Lemma lastWrite_app {X} (sel : Event -> option X) t l :
  lastWrite sel (t ++ l) =
    fold_left (fun acc e => match sel e with Some x => Some x | None => acc end)
      l (lastWrite sel t).
Proof. unfold lastWrite. apply fold_left_app. Qed.

(** What the power handling can do: nothing, switch on, or switch off. *)
Lemma handlePowerButton_cases hw w :
  let w1 := exec (handlePowerButton hw) w in
  doorOpenCount w1 = doorOpenCount w /\ doorClosedCount w1 = doorClosedCount w
  /\ ((systemState w1 = systemState w /\ trace w1 = trace w
       /\ doorOpenWarningActive w1 = doorOpenWarningActive w
       /\ overloadWarningActive w1 = overloadWarningActive w)
      \/ (systemState w = OFF /\ systemState w1 = IDLE
          /\ trace w1 = trace w ++ powerOnOutput
          /\ doorOpenWarningActive w1 = doorOpenWarningActive w
          /\ overloadWarningActive w1 = overloadWarningActive w)
      \/ (systemState w <> OFF /\ systemState w1 = OFF
          /\ trace w1 = trace w ++ powerOffOutput
          /\ doorOpenWarningActive w1 = false
          /\ overloadWarningActive w1 = false)).
Proof.
  cbv zeta.
  change (wp (handlePowerButton hw) (fun _ w1 =>
    doorOpenCount w1 = doorOpenCount w /\ doorClosedCount w1 = doorClosedCount w
    /\ ((systemState w1 = systemState w /\ trace w1 = trace w
         /\ doorOpenWarningActive w1 = doorOpenWarningActive w
         /\ overloadWarningActive w1 = overloadWarningActive w)
        \/ (systemState w = OFF /\ systemState w1 = IDLE
            /\ trace w1 = trace w ++ powerOnOutput
            /\ doorOpenWarningActive w1 = doorOpenWarningActive w
            /\ overloadWarningActive w1 = overloadWarningActive w)
        \/ (systemState w <> OFF /\ systemState w1 = OFF
            /\ trace w1 = trace w ++ powerOffOutput
            /\ doorOpenWarningActive w1 = false
            /\ overloadWarningActive w1 = false))) w).
  unfold handlePowerButton, powerOn, powerOff.
  wp_go; (split; [reflexivity | split; [reflexivity | ]]);
    first
      [ left; repeat split; reflexivity
      | right; left; repeat split; try assumption; try reflexivity;
        unfold powerOnOutput; rewrite <- ?app_assoc; reflexivity
      | right; right; repeat split; try congruence;
        unfold powerOffOutput; rewrite <- ?app_assoc; reflexivity ].
Qed.

Lemma handleStartButton_state hw w :
  systemState w <> RUNNING ->
  let w2 := exec (handleStartButton hw) w in
  systemState w2 = systemState w
  /\ (systemState w = OFF -> trace w2 = trace w).
Proof.
  cbv zeta.
  change (systemState w <> RUNNING ->
          wp (handleStartButton hw) (fun _ w2 =>
            systemState w2 = systemState w
            /\ (systemState w = OFF -> trace w2 = trace w)) w).
  intro H. unfold handleStartButton.
  wp_using idtac; try contradiction;
    (split; [congruence | intro; try congruence; try reflexivity]).
Qed.

Lemma handleStartButton_flags hw :
  preserves (fun w => (doorOpenWarningActive w, overloadWarningActive w))
    (handleStartButton hw).
Proof. unfold handleStartButton; frames. Qed.

Lemma outputsOff_after_powerOff t : outputsOff (t ++ powerOffOutput).
Proof.
  unfold outputsOff. rewrite !lastWrite_app. repeat split.
Qed.

Lemma outputsOff_wait t us : outputsOff t -> outputsOff (t ++ [WaitUs us]).
Proof.
  unfold outputsOff. rewrite !lastWrite_app. exact (fun H => H).
Qed.

Lemma loopBody_powerInvariant hw w :
  betweenRounds w -> powerInvariant w -> powerInvariant (exec (loopBody hw) w).
Proof.
  intros [Hrun _] [Hpar Hoff]. rewrite exec_loopBody.
  (* the power button *)
  pose proof (handlePowerButton_not_running hw w Hrun) as Hrun1.
  destruct (handlePowerButton_cases hw w) as (_ & _ & Hcases).
  assert (H1 : powerInvariant (exec (handlePowerButton hw) w)).
  { unfold powerInvariant, powerEvents in *.
    destruct Hcases as [(Hs & Ht & Hd & Ho) | [(Hs & Hs1 & Ht & Hd & Ho)
                                             | (Hs & Hs1 & Ht & Hd & Ho)]].
    - rewrite Hs, Ht, Hd, Ho. split; assumption.
    - rewrite Hs1, Ht, countLogs_app.
      change (countLogs isPowerLine powerOnOutput) with 1%nat.
      rewrite Nat.add_1_r, Nat.even_succ, <- Nat.negb_even.
      rewrite Hs in Hpar.
      destruct (Nat.even (countLogs isPowerLine (trace w))); [ | discriminate].
      split; [reflexivity | discriminate].
    - rewrite Hs1, Ht, Hd, Ho, countLogs_app.
      change (countLogs isPowerLine powerOffOutput) with 1%nat.
      rewrite Nat.add_1_r, Nat.even_succ, <- Nat.negb_even.
      destruct (Nat.even (countLogs isPowerLine (trace w))); [congruence | ].
      split; [reflexivity | ].
      intros _. split; [reflexivity | split; [reflexivity | ]].
      apply outputsOff_after_powerOff. }
  clear Hcases Hpar Hoff.
  generalize dependent (exec (handlePowerButton hw) w). clear w Hrun.
  intros w1 Hrun1 [Hpar Hoff].
  (* the start button *)
  destruct (handleStartButton_state hw w1 Hrun1) as [Hs2 Ht2].
  pose proof (handleStartButton_flags hw w1) as Hf2. cbv beta in Hf2.
  pose proof (countLogs_logs isPowerLine (handleStartButton hw) w1
                (logs_handleStartButton hw _ eq_refl eq_refl
                   (fun _ _ _ => eq_refl) (fun _ => eq_refl) eq_refl eq_refl eq_refl))
    as He2.
  generalize dependent (exec (handleStartButton hw) w1). intros w2 Hs2 Ht2 Hf2 He2.
  injection Hf2 as Hd2 Ho2.
  (* the rest of the round *)
  destruct (afterButtons_buttons hw w2) as (_ & _ & _ & _ & Hs3).
  pose proof (afterButtons_events hw isPowerLine w2
                (fun _ _ _ => eq_refl) (fun _ _ _ => eq_refl) eq_refl eq_refl) as He3.
  unfold powerInvariant, powerEvents in *.
  rewrite Hs3, He3, Hs2, He2. split; [exact Hpar | ].
  intro Hs. destruct (Hoff Hs) as (Hd & Ho & Hout).
  unfold afterButtons. rewrite Hs2, Hs, exec_wait_us. fields.
  rewrite Hd2, Ho2, (Ht2 Hs).
  split; [assumption | split; [assumption | apply outputsOff_wait, Hout]].
Qed.

Lemma rounds_powerInvariant hw n : forall w,
  betweenRounds w -> powerInvariant w ->
  betweenRounds (exec (rounds hw n) w) /\ powerInvariant (exec (rounds hw n) w).
Proof.
  induction n as [|n IH]; intros w Hb Hp; [split; assumption | ].
  rewrite exec_rounds_S.
  apply IH; [apply loopBody_betweenRounds, Hb | apply loopBody_powerInvariant; assumption].
Qed.

Lemma main_powerInvariant hw n : powerInvariant (exec (main hw n) initialWorld).
Proof.
  unfold main. rewrite exec_bind.
  apply rounds_powerInvariant; [apply setup_betweenRounds | ].
  split; [reflexivity | intros _; repeat split].
Qed.

(** X4.  Power button events toggle the system: after any number of rounds
    of [main] the system is OFF when the number of System On / System Off
    lines printed so far is even, and IDLE when it is odd. *)
Theorem power_events_toggle_system (hw : Hardware) (n : nat) :
  let w := exec (main hw n) initialWorld in
  systemState w = if Nat.even (powerEvents w) then OFF else IDLE.
Proof. exact (proj1 (main_powerInvariant hw n)). Qed.

(** X5.  Whenever the system is OFF between two rounds of [main], both
    warning flags are inactive and every actuator is off: the last duty
    written to the buzzer and to the three RGB channels is 0, the door LED is
    0 and the display is blank. *)
Theorem everything_off_while_off (hw : Hardware) (n : nat) :
  let w := exec (main hw n) initialWorld in
  systemState w = OFF ->
  doorOpenWarningActive w = false
  /\ overloadWarningActive w = false
  /\ outputsOff (trace w).
Proof. exact (proj2 (main_powerInvariant hw n)). Qed.

Lemma everything_off_while_off_witness :
  outputsOff (trace (exec (main powerCycledMachine 4) initialWorld)).
Proof.
  apply (everything_off_while_off powerCycledMachine 4).
  vm_compute. reflexivity.
Defined.

(** ** The buzzer *)

Section Keeps.

Context (I : World -> Prop).

Lemma keeps_ret {A} (a : A) : keeps I (ret a).
Proof. intros w H; exact H. Qed.

Lemma keeps_get {A} (g : World -> A) : keeps I (get g).
Proof. intros w H; exact H. Qed.

Lemma keeps_bind {A B} (c : M A) (k : A -> M B) :
  keeps I c -> (forall a, keeps I (k a)) -> keeps I (bind c k).
Proof. intros Hc Hk w H. rewrite exec_bind. apply Hk, Hc, H. Qed.

Lemma keeps_when b c : keeps I c -> keeps I (when b c).
Proof. destruct b; [exact (fun H => H) | intros _ w H; exact H]. Qed.

Lemma keeps_ite {A} (b : bool) (c1 c2 : M A) :
  keeps I c1 -> keeps I c2 -> keeps I (if b then c1 else c2).
Proof. destruct b; auto. Qed.

End Keeps.

Lemma silent_unless_buzzer e :
  pwmDuty buzzer e = None -> keeps buzzerSilent (emit e).
Proof.
  intros He w H. unfold buzzerSilent in *. rewrite exec_emit. fields.
  rewrite lastWrite_app. cbn [fold_left]. rewrite He. exact H.
Qed.

Lemma silent_playBeep freq d : keeps buzzerSilent (playBeep freq d).
Proof.
  intros w _. unfold buzzerSilent. rewrite exec_playBeep. fields.
  rewrite lastWrite_app. reflexivity.
Qed.

(** One structural step of a proof that a program keeps an invariant. *)
Ltac keeps_struct :=
  match goal with
  | H : keeps ?I ?c |- keeps ?I ?c => exact H
  | |- keeps _ (bind _ _) => apply keeps_bind; [ | intro ]
  | |- keeps _ (ret _) => apply keeps_ret
  | |- keeps _ (get _) => apply keeps_get
  | |- keeps _ (when _ _) => apply keeps_when
  | |- keeps _ (if _ then _ else _) => apply keeps_ite
  | |- keeps _ (match ?s with OFF => _ | IDLE => _ | RUNNING => _ end) => destruct s
  | |- keeps _ (modify _) => intros ? H; exact H
  | |- keeps _ (analogRead _ _) => intros ? H; exact H
  | |- keeps _ (digitalRead _ _) => intros ? H; exact H
  end.

(** One step of a proof that a program leaves the buzzer silent. *)
Ltac silent_step :=
  first
    [ keeps_struct
    | match goal with
      | |- keeps _ (playBeep _ _) => apply silent_playBeep
      | |- keeps _ (emit _) => apply silent_unless_buzzer; reflexivity
      | |- keeps _ (printf _) => apply silent_unless_buzzer; reflexivity
      | |- keeps _ (wait_us _) => apply silent_unless_buzzer; reflexivity
      | |- keeps _ (pwmWrite _ _) => apply silent_unless_buzzer; reflexivity
      | |- keeps _ (pwmPeriod _ _) => apply silent_unless_buzzer; reflexivity
      end ].

Ltac silent := repeat silent_step.

Section Silent.

Variable hw : Hardware.

Lemma silent_sampleLoop n sensor scale sum :
  keeps buzzerSilent (sampleLoop hw n sensor scale sum).
Proof.
  revert sum; induction n as [|n IH]; intro sum; cbn [sampleLoop]; silent.
  apply IH.
Qed.

Lemma silent_countdownLoop n : keeps buzzerSilent (countdownLoop n).
Proof.
  induction n as [|n IH]; cbn [countdownLoop]; unfold updateDisplay; silent.
Qed.

Lemma silent_completionBeeps n : keeps buzzerSilent (completionBeeps n).
Proof. induction n as [|n IH]; cbn [completionBeeps]; silent. Qed.

Lemma silent_readAndProcessSensors : keeps buzzerSilent (readAndProcessSensors hw).
Proof.
  unfold readAndProcessSensors, readAveragedSensor, isDoorOpen, updateDisplay,
    doorDebounce, setLoadLevelColor, setRGB, overloadUpdate.
  silent; apply silent_sampleLoop.
Qed.

Lemma silent_handleButtons : keeps buzzerSilent (handleButtons hw).
Proof.
  unfold handleButtons, handlePowerButton, handleStartButton, powerOn, powerOff,
    runCycleCountdown, updateDisplay, setRGB.
  silent; auto using silent_countdownLoop, silent_completionBeeps.
Qed.

Lemma silent_loopBody : keeps buzzerSilent (loopBody hw).
Proof.
  unfold loopBody. silent;
    auto using silent_handleButtons, silent_readAndProcessSensors.
Qed.

Lemma silent_rounds n : keeps buzzerSilent (rounds hw n).
Proof. induction n as [|n IH]; cbn [rounds]; silent. apply silent_loopBody. Qed.

End Silent.

(** X6.  The buzzer is never left sounding: every function that starts a
    tone also stops it, so after any number of rounds of [main] (whatever
    the inputs, and also right after a wash cycle) the last duty written to
    the buzzer is 0. *)
Theorem buzzer_silent_between_rounds (hw : Hardware) (n : nat) :
  lastWrite (pwmDuty buzzer) (trace (exec (main hw n) initialWorld)) = Some f0.
Proof.
  unfold main. rewrite exec_bind.
  apply (silent_rounds hw n). reflexivity.
Qed.

(** ** The duration of a cycle *)

Lemma totalWait_app a b : totalWait (a ++ b) = totalWait a + totalWait b.
Proof.
  unfold totalWait. induction a as [|e a IH]; [reflexivity | ].
  cbn [app fold_right]. rewrite IH. destruct e; lia.
Qed.

Lemma totalWait_steps st l : totalWait (flat_map (stepOutput st) l) = 0.
Proof. induction l as [|i l IH]; [reflexivity | exact IH]. Qed.

(** X7.  The countdown does not wait between its steps: whatever the
    minutes and the state, [runCycleCountdown] delays the program by exactly
    1.2 s, the three completion tones of 200 ms with their 200 ms pauses. *)
Theorem cycle_takes_constant_time (minutes : Z) (w : World) :
  totalWait (trace (exec (runCycleCountdown minutes) w))
  = totalWait (trace w) + 1200000.
Proof.
  rewrite exec_runCycleCountdown. fields. unfold cycleOutput.
  rewrite !totalWait_app, totalWait_steps. reflexivity.
Qed.

(** ** The colour and the overload condition *)

Lemma ltb_leb x y : F32.ltb x y = true -> F32.leb x y = true.
Proof.
  unfold F32.ltb, F32.leb, SFltb, SFleb.
  destruct (SFcompare x y) as [[ | | ] | ]; congruence.
Qed.

(** Two floats neither of which is below the other compare equal, unless
    one of them is not a number. *)
Lemma ltb_total x y :
  F32.ltb x y = false -> F32.ltb y x = false ->
  SFcompare x y = Some Eq \/ isNaN x = true \/ isNaN y = true.
Proof.
  unfold F32.ltb, SFltb.
  destruct x as [sx | sx | | sx mx ex], y as [sy | sy | | sy my ey]; cbn [SFcompare isNaN];
    auto;
    repeat match goal with s : bool |- _ => destruct s end;
    try discriminate; auto; intros Hxy Hyx; left; cmp_cases.
Qed.

(** A float that compares equal to a finite non-zero float is that float. *)
Lemma compare_eq_finite x y :
  (match y with S754_finite _ _ _ => true | _ => false end) = true ->
  SFcompare x y = Some Eq -> x = y.
Proof.
  destruct y as [ | | | sy my ey]; try discriminate. intros _.
  destruct x as [sx | sx | | sx mx ex]; cbn [SFcompare];
    repeat match goal with s : bool |- _ => destruct s end;
    try discriminate; intro H.
  - destruct (Z.compare_spec ex ey); try discriminate. subst ex.
    change (Pos.compare_cont Eq mx my) with (Pos.compare mx my) in H.
    destruct (Pos.compare_spec mx my); try discriminate. subst. reflexivity.
  - destruct (Z.compare_spec ex ey); try discriminate. subst ex.
    change (Pos.compare_cont Eq mx my) with (Pos.compare mx my) in H.
    destruct (Pos.compare_spec mx my); try discriminate. subst. reflexivity.
Qed.

(** A load above the threshold is below none of the four bounds. *)
Lemma overloaded_shown_red load :
  isOverloaded load = true -> setLoadLevelColor load = showTier Overload.
Proof.
  unfold isOverloaded. intro H. pose proof (ltb_leb _ _ H) as Hle.
  unfold setLoadLevelColor.
  rewrite (leb_not_ltb _ _ Hle),
    (ltb_leb_trans LOAD_LIGHT LOAD_OVERLOAD load eq_refl Hle),
    (ltb_leb_trans LOAD_MEDIUM LOAD_OVERLOAD load eq_refl Hle),
    (ltb_leb_trans LOAD_HEAVY LOAD_OVERLOAD load eq_refl Hle).
  reflexivity.
Qed.

(** X8.  The colour and the overload condition agree except at the
    threshold: a load is shown red exactly when [isOverloaded] holds for it,
    or it is equal to the threshold 0.7, or it is not a number. *)
Theorem red_iff_overloaded_or_threshold (load : float) :
  setLoadLevelColor load = showTier Overload
  <-> (isOverloaded load = true \/ load = LOAD_OVERLOAD \/ isNaN load = true).
Proof.
  split.
  - intro Hred.
    assert (Hlt : F32.ltb load LOAD_OVERLOAD = false).
    { apply (f_equal (fun c => trace (exec c initialWorld))) in Hred.
      unfold setLoadLevelColor in Hred.
      destruct (F32.ltb load LOAD_LIGHT); [discriminate | ].
      destruct (F32.ltb load LOAD_MEDIUM); [discriminate | ].
      destruct (F32.ltb load LOAD_HEAVY); [discriminate | ].
      destruct (F32.ltb load LOAD_OVERLOAD); [discriminate | reflexivity]. }
    destruct (isOverloaded load) eqn:Hover; [left; reflexivity | right].
    destruct (ltb_total load LOAD_OVERLOAD Hlt Hover) as [H | [H | H]];
      [left | right; exact H | discriminate].
    apply compare_eq_finite; [reflexivity | exact H].
  - intros [H | [H | H]].
    + apply overloaded_shown_red, H.
    + subst load. reflexivity.
    + destruct load; try discriminate. reflexivity.
Qed.

Lemma red_iff_overloaded_or_threshold_witness :
  setLoadLevelColor (F32.lit 75 2) = showTier Overload.
Proof.
  apply (proj2 (red_iff_overloaded_or_threshold (F32.lit 75 2))).
  left. vm_compute. reflexivity.
Defined.

(** ** Rounds in which the system is OFF *)

(** The start handling leaves the system OFF only when it was OFF, and then
    it prints nothing and reads no analog input. *)
Lemma handleStartButton_ends_off hw w :
  systemState (exec (handleStartButton hw) w) = OFF ->
  systemState w = OFF
  /\ trace (exec (handleStartButton hw) w) = trace w
  /\ (forall p, analogReads (exec (handleStartButton hw) w) p = analogReads w p).
Proof.
  change (wp (handleStartButton hw) (fun _ w2 =>
    systemState w2 = OFF ->
    systemState w = OFF /\ trace w2 = trace w
    /\ (forall p, analogReads w2 p = analogReads w p)) w).
  unfold handleStartButton.
  destruct (systemState w) eqn:Hs;
    wp_using ltac:(rewrite ?Hs); intro Hend; try discriminate;
    repeat split; reflexivity.
Qed.

(** X9.  A round of the main loop that leaves the system OFF samples no
    analog input and ignores the start button: all it emits is the power-off
    sequence, when the system was on before, and the 500 ms wait. *)
Theorem off_round_reads_no_sensor (hw : Hardware) (w : World) :
  systemState (exec (loopBody hw) w) = OFF ->
  (forall p, analogReads (exec (loopBody hw) w) p = analogReads w p)
  /\ trace (exec (loopBody hw) w)
     = trace w
       ++ (match systemState w with OFF => [] | _ => powerOffOutput end)
       ++ [WaitUs 500000].
Proof.
  rewrite exec_loopBody.
  destruct (afterButtons_buttons hw
              (exec (handleStartButton hw) (exec (handlePowerButton hw) w)))
    as (_ & _ & _ & _ & Hs3).
  rewrite Hs3. intro Hoff.
  destruct (handleStartButton_ends_off hw _ Hoff) as (Hs1 & Ht2 & Ha2).
  unfold afterButtons. rewrite Hoff, exec_wait_us. fields.
  rewrite Ht2. clear Hs3 Hoff Ht2.
  split.
  - intro p. rewrite Ha2. apply (handlePowerButton_analogReads hw p w).
  - clear Ha2.
    destruct (handlePowerButton_cases hw w) as (_ & _ & Hcases).
    generalize dependent (exec (handlePowerButton hw) w). intros w1 Hs1 Hcases.
    destruct Hcases as [(Hs & Ht & _) | [(_ & Hs & _) | (Hs & _ & Ht & _)]].
    + rewrite <- Hs, Hs1, Ht. reflexivity.
    + congruence.
    + rewrite Ht, <- app_assoc.
      destruct (systemState w); [contradiction | reflexivity | reflexivity].
Qed.

Lemma off_round_reads_no_sensor_witness :
  trace (exec (loopBody overloadedMachine) initialWorld) = [WaitUs 500000].
Proof.
  apply (off_round_reads_no_sensor overloadedMachine initialWorld).
  vm_compute. reflexivity.
Defined.

(** ** The door debounce across a power cycle *)

Lemma powerOff_door w :
  doorOpenWarningActive (exec powerOff w) = false
  /\ doorOpenCount (exec powerOff w) = doorOpenCount w
  /\ doorClosedCount (exec powerOff w) = doorClosedCount w.
Proof.
  change (wp powerOff (fun _ w' =>
    doorOpenWarningActive w' = false
    /\ doorOpenCount w' = doorOpenCount w
    /\ doorClosedCount w' = doorClosedCount w) w).
  unfold powerOff. wp_go; repeat split.
Qed.

Lemma powerOn_door : preserves doorVars powerOn.
Proof. unfold powerOn; frames. Qed.

(** X10.  [powerOff] clears the door flag but not the door counters, and
    [powerOn] resets neither.  So when the door had been read open at least
    twice in a row before the system was switched off, the flag is inactive
    after the power cycle and a single open reading raises it again, without
    the three consistent readings. *)
Theorem door_flag_returns_on_first_reading_after_power_cycle (w : World) :
  DEBOUNCE_COUNT - 1 <= doorOpenCount w < INT_MAX ->
  let w1 := exec powerOn (exec powerOff w) in
  doorOpenWarningActive w1 = false
  /\ doorOpenCount w1 = doorOpenCount w
  /\ doorOpenWarningActive (exec (doorDebounce true) w1) = true.
Proof.
  intros Hc. cbv zeta. unfold DEBOUNCE_COUNT, INT_MAX in Hc.
  destruct (powerOff_door w) as (Hf & Ho & _).
  pose proof (powerOn_door (exec powerOff w)) as Hon. unfold doorVars in Hon.
  generalize dependent (exec powerOff w). intros w0 Hf Ho Hon.
  generalize dependent (exec powerOn w0). intros w1 Hon.
  injection Hon as Hf1 Ho1 _.
  rewrite Hf1, Hf, Ho1, Ho. split; [reflexivity | split; [reflexivity | ]].
  rewrite doorDebounce_flag, doorDebounce_openCount, Hf1, Hf, Ho1, Ho.
  rewrite wrap32_small by (unfold INT_MIN, INT_MAX; lia).
  unfold DEBOUNCE_COUNT. apply Z.leb_le. lia.
Qed.

Lemma door_flag_returns_on_first_reading_after_power_cycle_witness :
  doorOpenWarningActive
    (exec (doorDebounce true)
       (exec powerOn (exec powerOff (exec (doorPolls [true; true; true]) initialWorld))))
  = true.
Proof.
  apply (door_flag_returns_on_first_reading_after_power_cycle
           (exec (doorPolls [true; true; true]) initialWorld)).
  vm_compute. split; [discriminate | reflexivity].
Defined.

(** ** Switching on and starting in the same round *)

Lemma handlePowerButton_switches_on hw w :
  systemState w = OFF -> lastPowerState w = 1 ->
  digital_signal hw powerButton (digitalReads w powerButton) = false ->
  systemState (exec (handlePowerButton hw) w) = IDLE
  /\ trace (exec (handlePowerButton hw) w) = trace w ++ powerOnOutput.
Proof.
  intros Hoff Hlast Hlow.
  change (wp (handlePowerButton hw) (fun _ w1 =>
    systemState w1 = IDLE /\ trace w1 = trace w ++ powerOnOutput) w).
  unfold handlePowerButton, powerOn.
  wp_using ltac:(rewrite ?Hoff, ?Hlast, ?Hlow);
    (split; [reflexivity | unfold powerOnOutput; rewrite <- ?app_assoc; reflexivity]).
Qed.

(** X11.  The start button is handled in the same call of [handleButtons]
    as the power button, before any sensor is polled, and while the system
    is OFF both warning flags are inactive.  So when the system is OFF and
    both buttons are pressed together, the system is switched on and the
    wash cycle runs at once, whatever the door and load sensors would
    deliver. *)
Theorem start_with_power_on_runs_unchecked (hw : Hardware) (n : nat) :
  let w := exec (main hw n) initialWorld in
  systemState w = OFF -> lastPowerState w = 1 -> lastStartState w = 1 ->
  digital_signal hw powerButton (digitalReads w powerButton) = false ->
  digital_signal hw startPauseButton (digitalReads w startPauseButton) = false ->
  let rpm := potSetting (analog_signal hw potRPM (analogReads w potRPM)) f7 100 in
  let temp := potSetting (analog_signal hw potTemp (analogReads w potTemp)) f4 10 in
  let time := startTime (analog_signal hw potTime (analogReads w potTime)) in
  trace (exec (handleButtons hw) w)
  = trace w ++ powerOnOutput
      ++ [Printf (LogStartingCycle rpm temp time)]
      ++ beepOutput (F32.of_int 700) 100
      ++ cycleOutput RUNNING time
      ++ [Printf LogCycleEnded].
Proof.
  cbv zeta. intros Hoff Hlp Hls Hp Hs.
  destruct (proj2 (main_powerInvariant hw n) Hoff) as (Hd & Ho & _).
  generalize dependent (exec (main hw n) initialWorld). intros w Hoff Hlp Hls Hp Hs Hd Ho.
  unfold handleButtons. rewrite exec_bind.
  assert (H1 : systemState (exec (handlePowerButton hw) w) = IDLE
               /\ trace (exec (handlePowerButton hw) w) = trace w ++ powerOnOutput
               /\ doorOpenWarningActive (exec (handlePowerButton hw) w) = false
               /\ overloadWarningActive (exec (handlePowerButton hw) w) = false
               /\ lastStartState (exec (handlePowerButton hw) w) = 1
               /\ digitalReads (exec (handlePowerButton hw) w) startPauseButton
                  = digitalReads w startPauseButton
               /\ (forall p, analogReads (exec (handlePowerButton hw) w) p
                             = analogReads w p)).
  { destruct (handlePowerButton_switches_on hw w Hoff Hlp Hp) as [Hidle Ht].
    destruct (handlePowerButton_idle_flags hw w Hidle) as [Hd1 Ho1].
    rewrite Hd1, Ho1, (handlePowerButton_lastStartState hw w).
    repeat split; try assumption.
    - apply (handlePowerButton_startReads hw w).
    - intro p. apply (handlePowerButton_analogReads hw p w). }
  generalize dependent (exec (handlePowerButton hw) w).
  intros w1 (Hidle & Ht & Hd1 & Ho1 & Hls1 & Hr1 & Ha1).
  rewrite <- Hr1 in Hs. rewrite <- !Ha1.
  destruct (handleStartButton_starts hw w1 Hs Hls1 Hidle Hd1 Ho1) as [_ Ht2].
  rewrite Ht2, Ht, <- !app_assoc. reflexivity.
Qed.

Lemma start_with_power_on_runs_unchecked_witness :
  In (Printf LogCycleEnded)
     (trace (exec (handleButtons bothPressedMachine)
               (exec (main bothPressedMachine 1) initialWorld))).
Proof.
  rewrite (start_with_power_on_runs_unchecked bothPressedMachine 1);
    try (vm_compute; reflexivity).
  rewrite !app_assoc. apply in_or_app. right. left. reflexivity.
Defined.

(** ** The door LED *)

Lemma led_unless_written e :
  ledLevel e = None -> keeps ledShowsDoor (emit e).
Proof.
  intros He w H. unfold ledShowsDoor in *. rewrite exec_emit. fields.
  rewrite lastWrite_app. cbn [fold_left]. rewrite He. exact H.
Qed.

Ltac led_step :=
  first
    [ keeps_struct
    | match goal with
      | |- keeps _ (emit _) => apply led_unless_written; reflexivity
      | |- keeps _ (printf _) => apply led_unless_written; reflexivity
      | |- keeps _ (wait_us _) => apply led_unless_written; reflexivity
      | |- keeps _ (pwmWrite _ _) => apply led_unless_written; reflexivity
      | |- keeps _ (pwmPeriod _ _) => apply led_unless_written; reflexivity
      end ].

Ltac led := repeat led_step.

Lemma led_countdownLoop n : keeps ledShowsDoor (countdownLoop n).
Proof.
  induction n as [|n IH]; cbn [countdownLoop]; unfold updateDisplay; led.
Qed.

Lemma led_completionBeeps n : keeps ledShowsDoor (completionBeeps n).
Proof.
  induction n as [|n IH]; cbn [completionBeeps]; unfold playBeep; led.
Qed.

Lemma led_handleStartButton hw : keeps ledShowsDoor (handleStartButton hw).
Proof.
  unfold handleStartButton, runCycleCountdown, updateDisplay, playBeep.
  led; auto using led_countdownLoop, led_completionBeeps.
Qed.

Lemma led_handlePowerButton hw : keeps ledShowsDoor (handlePowerButton hw).
Proof.
  intros w H. unfold ledShowsDoor in *.
  destruct (handlePowerButton_cases hw w) as (_ & _ & Hcases).
  destruct Hcases as [(_ & Ht & Hd & _) | [(_ & _ & Ht & Hd & _)
                                          | (_ & _ & Ht & Hd & _)]];
    rewrite Ht, Hd, ?lastWrite_app; [exact H | | reflexivity].
  cbn [powerOnOutput beepOutput app fold_left ledLevel]. exact H.
Qed.

(** The part of a sensor poll after the door debounce: colour and overload
    warning. *)
Lemma led_colour_overload fsr :
  keeps ledShowsDoor (setLoadLevelColor fsr ;; overloadUpdate fsr).
Proof.
  unfold setLoadLevelColor, setRGB, overloadUpdate, playBeep. led.
Qed.

Lemma wp_skip {A B} (c : M A) (k : A -> M B) (Q : B -> World -> Prop) :
  (forall a w, wp (k a) Q w) -> forall w, wp (bind c k) Q w.
Proof. intros H w. apply wp_bind. apply H. Qed.

Lemma wp_keeps (I : World -> Prop) (c : M unit) w :
  keeps I c -> preserves systemState c ->
  (systemState w = IDLE -> I w) ->
  wp c (fun _ w' => systemState w' = IDLE -> I w') w.
Proof.
  intros Hk Hp Hw. unfold wp. rewrite Hp. intro Hs. apply Hk, Hw, Hs.
Qed.

(** A sensor poll in the state IDLE leaves the LED showing the door flag. *)
Lemma readAndProcessSensors_led hw w :
  systemState w = IDLE -> ledShowsDoor (exec (readAndProcessSensors hw) w).
Proof.
  intro Hidle.
  rewrite <- (readAndProcessSensors_systemState hw w) in Hidle.
  revert Hidle.
  change (wp (readAndProcessSensors hw)
            (fun _ w' => systemState w' = IDLE -> ledShowsDoor w') w).
  revert w. unfold readAndProcessSensors.
  repeat match goal with
         | |- forall w, wp (bind ?c _) _ w =>
             lazymatch c with
             | doorDebounce _ => fail
             | _ => apply wp_skip; intro
             end
         end.
  intro w. unfold doorDebounce.
  repeat first
    [ match goal with
      | |- wp (bind (setLoadLevelColor _) _) _ _ =>
          apply wp_keeps;
          [ apply led_colour_overload
          | unfold setLoadLevelColor, overloadUpdate; frames | ]
      end
    | wp_step | wp_call ];
    fields; intro Hs;
    try (rewrite Hs in *; discriminate);
    unfold ledShowsDoor; fields; rewrite ?lastWrite_app; reflexivity.
Qed.

Lemma loopBody_led hw w :
  betweenRounds w -> ledShowsDoor w -> ledShowsDoor (exec (loopBody hw) w).
Proof.
  intros [Hrun _] Hled. rewrite exec_loopBody.
  pose proof (handlePowerButton_not_running hw w Hrun) as Hrun1.
  apply (led_handlePowerButton hw) in Hled.
  generalize dependent (exec (handlePowerButton hw) w). intros w1 Hled1 Hrun1.
  destruct (handleStartButton_not_running hw w1 Hrun1) as [Hrun2 _].
  apply (led_handleStartButton hw) in Hled1.
  generalize dependent (exec (handleStartButton hw) w1). intros w2 Hled2 Hrun2.
  unfold afterButtons.
  destruct (systemState w2) eqn:Hs; [ | | contradiction].
  - apply (led_unless_written (WaitUs 500000) eq_refl), Hled2.
  - apply (led_unless_written (WaitUs 100000) eq_refl).
    apply readAndProcessSensors_led, Hs.
Qed.

Lemma rounds_led hw n : forall w,
  betweenRounds w -> ledShowsDoor w -> ledShowsDoor (exec (rounds hw n) w).
Proof.
  induction n as [|n IH]; intros w Hb Hl; [exact Hl | ].
  rewrite exec_rounds_S.
  apply IH; [apply loopBody_betweenRounds, Hb | apply loopBody_led; assumption].
Qed.

(** X12.  The door LED always shows the door flag: after any number of
    rounds of [main], whatever the inputs, the last level written to the LED
    is 1 when the door warning is active and 0 when it is not (also while
    the system is OFF, and right after a wash cycle). *)
Theorem door_led_shows_door_flag (hw : Hardware) (n : nat) :
  let w := exec (main hw n) initialWorld in
  lastWrite ledLevel (trace w) = Some (if doorOpenWarningActive w then 1 else 0).
Proof.
  cbv zeta. unfold main. rewrite exec_bind.
  apply (rounds_led hw n); [apply setup_betweenRounds | reflexivity].
Qed.

(** ** The settings line *)

Lemma settingsLines_app a b :
  settingsLines (a ++ b) = settingsLines a ++ settingsLines b.
Proof. apply flat_map_app. Qed.

Lemma settingsLines_allowed out :
  Forall (allowed (fun l => isSettingsLine l = false)) out -> settingsLines out = [].
Proof.
  induction 1 as [|e out He _ IH]; [reflexivity | ].
  cbn [settingsLines flat_map]. fold (settingsLines out). rewrite IH.
  destruct e as [l | | | | | ]; try reflexivity.
  destruct l; try reflexivity. discriminate.
Qed.

(** A program that does not assign the remembered settings and prints no
    settings line. *)
Lemma settings_skip {A} (c : M A) :
  preserves settingsVars c -> logs (fun l => isSettingsLine l = false) c ->
  preserves settingsObs c.
Proof.
  intros Hv Hl w. unfold settingsObs. rewrite Hv.
  destruct (Hl w) as (out & E & F).
  rewrite E, settingsLines_app, (settingsLines_allowed out F), app_nil_r.
  reflexivity.
Qed.

Lemma settingsActs_after {A B} g (c : M A) (k : A -> M B) :
  preserves settingsObs c -> (forall a, settingsActs g (k a)) ->
  settingsActs g (bind c k).
Proof. intros Hc Hk w. rewrite exec_bind, Hk, Hc. reflexivity. Qed.

Lemma wp_preserved {A X} (f : World -> X) (c : M A) (x : X) w :
  preserves f c -> f w = x -> wp c (fun _ w' => f w' = x) w.
Proof. intros Hc Hw. unfold wp. rewrite Hc. exact Hw. Qed.

Section SettingsLine.

Variable hw : Hardware.

Ltac settings_frame :=
  apply settings_skip;
  [ unfold doorDebounce, overloadUpdate; frames
  | logs_run;
    auto using logs_readAveragedSensor, logs_updateDisplay, logs_isDoorOpen,
      logs_doorDebounce, logs_setLoadLevelColor, logs_overloadUpdate ].

(** A sensor poll acts on the remembered settings and the settings lines
    as [settingsStep] on the settings it computes from the three
    potentiometers. *)
Lemma readAndProcessSensors_settings w :
  let rpm := potSetting (analog_signal hw potRPM (analogReads w potRPM)) f7 100 in
  let temp := potSetting (analog_signal hw potTemp (analogReads w potTemp)) f4 10 in
  let time := timeSetting (analog_signal hw potTime (analogReads w potTime)) in
  settingsObs (exec (readAndProcessSensors hw) w)
  = settingsStep rpm temp time (settingsObs w).
Proof.
  intros rpm temp time.
  change (wp (readAndProcessSensors hw)
            (fun _ w' => settingsObs w' = settingsStep rpm temp time (settingsObs w)) w).
  unfold readAndProcessSensors.
  do 3 (apply wp_bind, wp_analogRead; fields; wp_bools).
  fold rpm temp time.
  match goal with
  | |- wp ?c _ ?w3 =>
      change (settingsObs w) with (settingsObs w3);
      generalize w3; change (settingsActs (settingsStep rpm temp time) c)
  end.
  generalize rpm temp time. clear rpm temp time w. intros rpm temp time.
  repeat match goal with
         | |- settingsActs _ (bind ?c _) =>
             lazymatch c with
             | get prevRpm => fail
             | _ => apply settingsActs_after; [solve [settings_frame] | intro]
             end
         end.
  intro w.
  match goal with
  | |- settingsObs (exec ?c w) = _ =>
      change (wp c (fun _ w' =>
                settingsObs w' = settingsStep rpm temp time (settingsObs w)) w)
  end.
  do 6 wp_step. apply wp_bind, wp_when; intro Hc.
  - do 7 wp_step.
    apply wp_preserved; [settings_frame | ].
    unfold settingsStep, settingsObs, settingsVars, settingsChanged. fields.
    cbn [fst snd]. rewrite Hc, settingsLines_app. reflexivity.
  - apply wp_preserved; [settings_frame | ].
    unfold settingsStep, settingsObs, settingsVars, settingsChanged.
    cbn [fst snd]. rewrite Hc. reflexivity.
Qed.

End SettingsLine.

(** On the values the settings take, the thresholds 50, 5 and 5 detect
    every change, and the initial -1 counts as a change. *)
Ltac each_setting :=
  cbn [In]; intros Ha Hb;
  repeat (destruct Ha as [<- | Ha]; [ | ]); try contradiction;
    repeat (destruct Hb as [<- | Hb]; [vm_compute; reflexivity | ]);
    contradiction.

Lemma rpm_change a b :
  In a rpmSettings -> In b (-1 :: rpmSettings) ->
  hasSignificantChange (F32.of_int a) (F32.of_int b) (F32.of_int 50) = negb (b =? a).
Proof. unfold rpmSettings. each_setting. Qed.

Lemma temp_change a b :
  In a tempSettings -> In b (-1 :: tempSettings) ->
  hasSignificantChange (F32.of_int a) (F32.of_int b) (F32.of_int 5) = negb (b =? a).
Proof. unfold tempSettings. each_setting. Qed.

Lemma time_change a b :
  In a timeSettings -> In b (-1 :: timeSettings) ->
  hasSignificantChange (F32.of_int a) (F32.of_int b) (F32.of_int 5) = negb (b =? a).
Proof. unfold timeSettings. each_setting. Qed.

Lemma settingsStep_on_values rpm temp time pRpm pTemp pTime lines :
  In rpm rpmSettings -> In temp tempSettings -> In time timeSettings ->
  In pRpm (-1 :: rpmSettings) -> In pTemp (-1 :: tempSettings) ->
  In pTime (-1 :: timeSettings) ->
  settingsStep rpm temp time (pRpm, pTemp, pTime, lines)
  = (rpm, temp, time,
     lines ++ (if (pRpm =? rpm) && (pTemp =? temp) && (pTime =? time)
               then [] else [(rpm, temp, time)])).
Proof.
  intros Hr Ht Hm Hpr Hpt Hpm.
  unfold settingsStep, settingsChanged. cbn [fst snd].
  rewrite (rpm_change _ _ Hr Hpr), (temp_change _ _ Ht Hpt),
    (time_change _ _ Hm Hpm).
  destruct (pRpm =? rpm) eqn:Er, (pTemp =? temp) eqn:Et, (pTime =? time) eqn:Em;
    cbn [negb orb andb]; try reflexivity.
  apply Z.eqb_eq in Er, Et, Em. subst. rewrite app_nil_r. reflexivity.
Qed.

(** X13.  The settings line is printed exactly when a setting changed.
    With the settings of a poll and the remembered ones among the values the
    potentiometers give in range (the remembered ones may still be the
    initial -1), [readAndProcessSensors] leaves the settings of this poll
    remembered, and it prints one settings line, with these settings, when
    one of them differs from the remembered value, and none otherwise. *)
Theorem settings_line_iff_setting_changed (hw : Hardware) (w : World) :
  let rpm := potSetting (analog_signal hw potRPM (analogReads w potRPM)) f7 100 in
  let temp := potSetting (analog_signal hw potTemp (analogReads w potTemp)) f4 10 in
  let time := timeSetting (analog_signal hw potTime (analogReads w potTime)) in
  In rpm rpmSettings -> In temp tempSettings -> In time timeSettings ->
  In (prevRpm w) (-1 :: rpmSettings) ->
  In (prevTemp w) (-1 :: tempSettings) ->
  In (prevTime w) (-1 :: timeSettings) ->
  let w' := exec (readAndProcessSensors hw) w in
  (prevRpm w', prevTemp w', prevTime w') = (rpm, temp, time)
  /\ settingsLines (trace w')
     = settingsLines (trace w)
       ++ (if (prevRpm w =? rpm) && (prevTemp w =? temp) && (prevTime w =? time)
           then [] else [(rpm, temp, time)]).
Proof.
  intros rpm temp time Hr Ht Hm Hpr Hpt Hpm w'.
  pose proof (readAndProcessSensors_settings hw w) as H. cbv zeta in H.
  fold rpm temp time w' in H.
  unfold settingsObs at 2 in H. unfold settingsVars in H.
  rewrite (settingsStep_on_values _ _ _ _ _ _ _ Hr Ht Hm Hpr Hpt Hpm) in H.
  unfold settingsObs, settingsVars in H.
  injection H as H1 H2 H3 H4. rewrite H1, H2, H3, H4. split; reflexivity.
Qed.

Lemma settings_line_iff_setting_changed_witness :
  settingsLines (trace (exec (readAndProcessSensors overloadedMachine) initialWorld))
  = [(500, 40, 10)].
Proof.
  apply (settings_line_iff_setting_changed overloadedMachine initialWorld);
    vm_compute; auto 12.
Defined.

(** ** The colour while the overload warning is active *)

Lemma red_unless_written e :
  pwmDuty rgbRed e = None -> pwmDuty rgbGreen e = None -> pwmDuty rgbBlue e = None ->
  keeps redWhenOverloaded (emit e).
Proof.
  intros Hr Hg Hb w H. unfold redWhenOverloaded, rgbIsRed in *.
  rewrite exec_emit. fields. rewrite !lastWrite_app. cbn [fold_left].
  rewrite Hr, Hg, Hb. exact H.
Qed.

Ltac stays_red_step :=
  first
    [ keeps_struct
    | match goal with
      | |- keeps _ (emit _) => apply red_unless_written; reflexivity
      | |- keeps _ (printf _) => apply red_unless_written; reflexivity
      | |- keeps _ (wait_us _) => apply red_unless_written; reflexivity
      | |- keeps _ (pwmWrite _ _) => apply red_unless_written; reflexivity
      | |- keeps _ (pwmPeriod _ _) => apply red_unless_written; reflexivity
      end ].

Ltac stays_red := repeat stays_red_step.

Lemma red_countdownLoop n : keeps redWhenOverloaded (countdownLoop n).
Proof.
  induction n as [|n IH]; cbn [countdownLoop]; unfold updateDisplay; stays_red.
Qed.

Lemma red_completionBeeps n : keeps redWhenOverloaded (completionBeeps n).
Proof.
  induction n as [|n IH]; cbn [completionBeeps]; unfold playBeep; stays_red.
Qed.

Lemma red_handleStartButton hw : keeps redWhenOverloaded (handleStartButton hw).
Proof.
  unfold handleStartButton, runCycleCountdown, updateDisplay, playBeep.
  stays_red; auto using red_countdownLoop, red_completionBeeps.
Qed.

Lemma red_handlePowerButton hw : keeps redWhenOverloaded (handlePowerButton hw).
Proof.
  intros w H. unfold redWhenOverloaded, rgbIsRed in *.
  destruct (handlePowerButton_cases hw w) as (_ & _ & Hcases).
  destruct Hcases as [(_ & Ht & _ & Ho) | [(_ & _ & Ht & _ & Ho)
                                          | (_ & _ & Ht & _ & Ho)]];
    rewrite Ht, Ho, ?lastWrite_app; [exact H | | discriminate].
  cbn [powerOnOutput beepOutput app fold_left pwmDuty]. exact H.
Qed.

(** The last two steps of a sensor poll: the colour of the load, and the
    overload flag of the same load. *)
Lemma red_colour_overload fsr w :
  redWhenOverloaded (exec (setLoadLevelColor fsr ;; overloadUpdate fsr) w).
Proof.
  unfold redWhenOverloaded. rewrite exec_bind, overloadUpdate_flag. intro Hover.
  rewrite (overloaded_shown_red fsr Hover).
  change (wp (overloadUpdate fsr) (fun _ w' => rgbIsRed (trace w'))
            (exec (showTier Overload) w)).
  unfold showTier, tierColor. rewrite exec_setRGB.
  unfold overloadUpdate, isOverloaded in *. rewrite Hover.
  wp_go; unfold rgbIsRed; rewrite ?lastWrite_app; repeat split.
Qed.

Lemma readAndProcessSensors_red hw w :
  redWhenOverloaded (exec (readAndProcessSensors hw) w).
Proof.
  change (wp (readAndProcessSensors hw) (fun _ w' => redWhenOverloaded w') w).
  revert w. unfold readAndProcessSensors.
  repeat match goal with
         | |- forall w, wp (bind ?c _) _ w =>
             lazymatch c with
             | setLoadLevelColor _ => fail
             | _ => apply wp_skip; intro
             end
         end.
  intro w. apply red_colour_overload.
Qed.

Lemma loopBody_red hw w :
  redWhenOverloaded w -> redWhenOverloaded (exec (loopBody hw) w).
Proof.
  intro Hred. rewrite exec_loopBody.
  apply (red_handlePowerButton hw), (red_handleStartButton hw) in Hred.
  generalize dependent (exec (handleStartButton hw) (exec (handlePowerButton hw) w)).
  intros w2 Hred2. unfold afterButtons.
  destruct (systemState w2).
  - apply (red_unless_written (WaitUs 500000) eq_refl eq_refl eq_refl), Hred2.
  - apply (red_unless_written (WaitUs 100000) eq_refl eq_refl eq_refl).
    apply readAndProcessSensors_red.
  - apply (red_unless_written (WaitUs 100000) eq_refl eq_refl eq_refl).
    apply readAndProcessSensors_red.
Qed.

Lemma rounds_red hw n : forall w,
  redWhenOverloaded w -> redWhenOverloaded (exec (rounds hw n) w).
Proof.
  induction n as [|n IH]; intros w Hw; [exact Hw | ].
  rewrite exec_rounds_S. apply IH, loopBody_red, Hw.
Qed.

(** X14.  While the overload warning is active the RGB LED is red: after
    any number of rounds of [main], whatever the inputs, if the overload flag
    is active then the last duties written to the red, green and blue
    channels are 1, 0 and 0. *)
Theorem overload_warning_shown_red (hw : Hardware) (n : nat) :
  let w := exec (main hw n) initialWorld in
  overloadWarningActive w = true -> rgbIsRed (trace w).
Proof.
  cbv zeta. unfold main. rewrite exec_bind.
  apply (rounds_red hw n). discriminate.
Qed.

Lemma overload_warning_shown_red_witness :
  rgbIsRed (trace (exec (main overloadedMachine 2) initialWorld)).
Proof.
  apply (overload_warning_shown_red overloadedMachine 2).
  vm_compute. reflexivity.
Defined.

(** ** Significant changes *)

(** The difference of a finite float and itself is zero. *)
Lemma sub_self_finite s m e :
  F32.sub (S754_finite s m e) (S754_finite s m e) = S754_zero false.
Proof.
  unfold F32.sub, SFsub. rewrite Z.min_id.
  unfold shl_align. rewrite Z.sub_diag. cbn [fst].
  destruct s; cbn [negb cond_Zopp]; rewrite ?Z.add_opp_diag_l, ?Z.add_opp_diag_r;
    reflexivity.
Qed.

Lemma ltb_leb_false x y : F32.ltb x y = true -> F32.leb y x = false.
Proof.
  intro H. destruct (F32.leb y x) eqn:E; [ | reflexivity].
  rewrite (leb_not_ltb _ _ E) in H. discriminate.
Qed.

(** X15.  For a positive threshold, a reading equal to the remembered one
    counts as a significant change exactly when it is negative.  So a
    negative value, like the initial -1, is reported at every poll, and a
    steady value that is not negative is never reported again, also when it
    is infinite or not a number. *)
Theorem unchanged_reading_significant_iff_negative (x threshold : float) :
  F32.ltb f0 threshold = true ->
  hasSignificantChange x x threshold = F32.ltb x f0.
Proof.
  intro Hth. unfold hasSignificantChange.
  change (F32.of_int 0) with f0.
  destruct (F32.ltb x f0) eqn:Hneg; [reflexivity | ].
  cbn [orb].
  destruct x as [s | [|] | | s m e].
  - destruct s; cbn; apply ltb_leb_false, Hth.
  - discriminate.
  - destruct threshold as [ | [|] | | [|] ]; reflexivity.
  - destruct threshold as [ | [|] | | [|] ]; reflexivity.
  - rewrite sub_self_finite. apply ltb_leb_false, Hth.
Qed.

Lemma unchanged_reading_significant_iff_negative_witness :
  hasSignificantChange (F32.lit 75 2) (F32.lit 75 2) FSR_THRESHOLD = false.
Proof.
  apply (unchanged_reading_significant_iff_negative (F32.lit 75 2) FSR_THRESHOLD).
  reflexivity.
Defined.
